(** * Math callouts: settings resolution, numbering and the profile registry

    A shallow embedding of the configuration core of the plugin:

    - the numeral formatter ([toRomanUpper], [toAlphUpper], [CONVERTER]),
    - the vault tree walk ([getAncestors]) and the settings resolver
      ([resolveSettings]), over a store of mutable settings objects,
    - plugin start-up ([loadSettings]),
    - the title formatter ([formatMathCalloutType], [formatTitleWithoutSubtitle],
      [formatTitle]),
    - the profile registry ([makeIdOfCopy], [getAffectedFiles], [updateProfile]
      and the modal dialogs that add, copy, rename and delete profiles),
    - the text, array and range utilities ([increaseQuoteLevel],
      [splitIntoLines], [removeFrom], [insertAt], [matchMathCallout] and the
      readers built on it, [nodeTextQuoteSymbolTrimmed], [hasOverlap]),
    - the walks over the vault ([iterDescendantFiles], [isEqualToOrChildOf]),
    - [formatLabel] and the settings helpers ([getCallback] and the label the
      title field derives).

    JavaScript objects used as dictionaries are finite maps from property
    names to values; objects that the program shares and mutates live in a
    store and are passed by reference. *)

From Stdlib Require Import ZArith Ascii String DecimalString.
From Stdlib Require DecimalPos DecimalFacts.
From stdpp Require Import gmap strings list fin_maps.

Local Open Scope string_scope.
Local Open Scope list_scope.
Local Open Scope nat_scope.

(** ** The fragment of JavaScript values the settings use *)

Module JS.

(** Numbers. The model covers the integer-valued numbers (exact for the
    safe-integer range of a double) and [NaN]. *)
Inductive number : Type :=
| NaN
| Num (z : Z).

(** Values stored in settings objects: primitives and references to plain
    objects of the store (the per-kind rename table is such an object). *)
Inductive JSValue : Type :=
| JUndefined
| JNull
| JBool (b : bool)
| JNumber (n : number)
| JStr (s : string)
| JRef (l : nat).

(** Abrupt completions that the modelled code can raise. *)
Inductive JSError : Type :=
| TypeError
| RangeError
| SyntaxError.

Inductive Completion (A : Type) : Type :=
| Normal (a : A)
| Throw (e : JSError).
Arguments Normal {A} a.
Arguments Throw {A} e.

Definition bindC {A B : Type} (c : Completion A) (k : A -> Completion B) : Completion B :=
  match c with
  | Normal a => k a
  | Throw e => Throw e
  end.

Definition mapC {A B : Type} (f : A -> B) (c : Completion A) : Completion B :=
  bindC c (fun a => Normal (f a)).

#[global] Instance number_eq_dec : EqDecision number.
Proof. solve_decision. Defined.

#[global] Instance JSValue_eq_dec : EqDecision JSValue.
Proof. solve_decision. Defined.

#[global] Instance JSError_eq_dec : EqDecision JSError.
Proof. solve_decision. Defined.

(** *** Characters *)

Definition chars (s : string) : list ascii := list_ascii_of_string s.
Definition unchars (l : list ascii) : string := string_of_list_ascii l.

Definition code (c : ascii) : nat := nat_of_ascii c.

Definition is_digit (c : ascii) : bool :=
  (48 <=? code c)%nat && (code c <=? 57)%nat.

Definition is_nonzero_digit (c : ascii) : bool :=
  (49 <=? code c)%nat && (code c <=? 57)%nat.

Definition digit_value (c : ascii) : Z := Z.of_nat (code c) - 48.

(** ASCII white space (the part of StrWhiteSpaceChar below code 128). *)
Definition is_space (c : ascii) : bool :=
  (code c =? 32)%nat || ((9 <=? code c)%nat && (code c <=? 13)%nat).

Definition is_upper (c : ascii) : bool :=
  (65 <=? code c)%nat && (code c <=? 90)%nat.

Definition is_lower (c : ascii) : bool :=
  (97 <=? code c)%nat && (code c <=? 122)%nat.

(** [String.prototype.toLowerCase] on ASCII text. *)
Definition lower_char (c : ascii) : ascii :=
  if is_upper c then ascii_of_nat (code c + 32) else c.

Definition toLowerCase (s : string) : string := unchars (lower_char <$> chars s).

(** [s.split(sep)] for a one-character separator: the pieces between the
    separators, one piece (the whole text) when there is none. *)
Fixpoint split_chars (sep : ascii) (l : list ascii) : list (list ascii) :=
  match l with
  | [] => [[]]
  | c :: r =>
      if Ascii.eqb c sep then [] :: split_chars sep r
      else match split_chars sep r with
           | piece :: pieces => (c :: piece) :: pieces
           | [] => [[c]]
           end
  end.

(** [s.slice(k)] for [0 <= k]: the text from position [k] on. *)
Definition slice_from (k : nat) (s : string) : string := unchars (drop k (chars s)).

(** [n] copies of [sep] in a row ([Array(n + 1).join(sep)]). *)
Definition repeat_string (sep : string) (n : nat) : string :=
  unchars (concat (replicate n (chars sep))).

(** *** Conversions *)

(** The integers on which the arithmetic of doubles is that of the
    integers: magnitude at most 2^53. *)
Definition exact_integer (z : Z) : Prop := (- 2 ^ 53 ≤ z ≤ 2 ^ 53)%Z.

(** The numbers that are integers of [exact_integer], as a test. *)
Definition exact_number (n : number) : bool :=
  match n with
  | NaN => false
  | Num z => (- 2 ^ 53 <=? z)%Z && (z <=? 2 ^ 53)%Z
  end.

(** [String(n)] and template interpolation of a number: the decimal
    numeral, which is what a double gives for the integers of
    [exact_integer]. The digits of larger doubles and the exponent notation
    from 10^21 on are not followed: the properties that print arbitrary
    numbers state the bound. *)
Definition number_to_string (n : number) : string :=
  match n with
  | NaN => "NaN"
  | Num z => NilZero.string_of_int (Z.to_int z)
  end.

Definition ToString (v : JSValue) : string :=
  match v with
  | JUndefined => "undefined"
  | JNull => "null"
  | JBool true => "true"
  | JBool false => "false"
  | JNumber n => number_to_string n
  | JStr s => s
  | JRef _ => "[object Object]"
  end.

Definition ToBoolean (v : JSValue) : bool :=
  match v with
  | JUndefined | JNull => false
  | JBool b => b
  | JNumber NaN => false
  | JNumber (Num z) => negb (z =? 0)%Z
  | JStr s => negb (String.eqb s "")
  | JRef _ => true
  end.

Fixpoint digits_value (acc : Z) (l : list ascii) : option Z :=
  match l with
  | [] => Some acc
  | c :: r => if is_digit c then digits_value (10 * acc + digit_value c) r else None
  end.

Definition unsigned_literal (l : list ascii) : number :=
  match l with
  | [] => NaN
  | _ => match digits_value 0 l with Some z => Num z | None => NaN end
  end.

Definition trim_chars (l : list ascii) : list ascii :=
  let fix skip (l : list ascii) : list ascii :=
    match l with
    | c :: r => if is_space c then skip r else l
    | [] => []
    end in
  reverse (skip (reverse (skip l))).

(** [String.prototype.trim] (ASCII white space). *)
Definition trim (s : string) : string := unchars (trim_chars (chars s)).

(** [ToNumber] applied to a string. Blank text is [0]; an optionally signed
    run of decimal digits is its value. Every other text is [NaN]: that is
    exact for text that is not a numeric literal; fractional, exponent,
    hexadecimal and [Infinity] literals lie outside the integer fragment of
    [number] and are not told apart from it. *)
Definition StringToNumber (s : string) : number :=
  match trim_chars (chars s) with
  | [] => Num 0
  | "+"%char :: r => unsigned_literal r
  | "-"%char :: r =>
      match unsigned_literal r with
      | Num z => Num (- z)
      | NaN => NaN
      end
  | l => unsigned_literal l
  end.

(** Unary plus. A reference is a plain object, whose primitive is the text
    [[object Object]]. *)
Definition ToNumber (v : JSValue) : number :=
  match v with
  | JUndefined => NaN
  | JNull => Num 0
  | JBool true => Num 1
  | JBool false => Num 0
  | JNumber n => n
  | JStr s => StringToNumber s
  | JRef _ => NaN
  end.

(** [a + b] on numbers. The sum is exact, as the sum of two doubles is
    when the operands and the result are integers of magnitude at most
    2^53; past that a double rounds, which is not followed here: the
    properties that add arbitrary numbers state this bound. *)
Definition number_add (a b : number) : number :=
  match a, b with
  | Num x, Num y => Num (x + y)
  | _, _ => NaN
  end.

Definition number_eqb (a b : number) : bool :=
  match a, b with
  | Num x, Num y => (x =? y)%Z
  | _, _ => false
  end.

(** [v == s] for a string [s] (abstract equality comparison). *)
Definition loose_eq_string (v : JSValue) (s : string) : bool :=
  match v with
  | JUndefined | JNull => false
  | JStr t => String.eqb t s
  | JNumber n => number_eqb n (StringToNumber s)
  | JBool b => number_eqb (ToNumber (JBool b)) (StringToNumber s)
  | JRef _ => String.eqb "[object Object]" s
  end.

(** [v ?? d] *)
Definition nullish (v : JSValue) : bool :=
  match v with
  | JUndefined | JNull => true
  | _ => false
  end.

Definition coalesce (v d : JSValue) : JSValue := if nullish v then d else v.

(** A plain object: its own enumerable properties. *)
Abbreviation JSObject := (gmap string JSValue).

(** [o[k]]: a missing property reads as [undefined]. *)
Definition get (o : JSObject) (k : string) : JSValue := default JUndefined (o !! k).

(** [s[k]] for a primitive string [s]: an index gives the character there,
    [length] the length, any other name [undefined] (the methods inherited
    from [String.prototype] are functions and are not values of this
    fragment; none of them is named like a theorem kind). *)
Definition string_get (s : string) (k : string) : JSValue :=
  if String.eqb k "length" then JNumber (Num (Z.of_nat (String.length s)))
  else match digits_value 0 (chars k) with
       | Some i =>
           if String.eqb (number_to_string (Num i)) k
           then match chars s !! Z.to_nat i with
                | Some c => JStr (String c "")
                | None => JUndefined
                end
           else JUndefined
       | None => JUndefined
       end.

End JS.

(** ** Numeral formatter *)

Module Numeral.
Import JS.

Definition ROMAN : list string :=
  [""; "C"; "CC"; "CCC"; "CD"; "D"; "DC"; "DCC"; "DCCC"; "CM";
   ""; "X"; "XX"; "XXX"; "XL"; "L"; "LX"; "LXX"; "LXXX"; "XC";
   ""; "I"; "II"; "III"; "IV"; "V"; "VI"; "VII"; "VIII"; "IX"].

(** [ROMAN[n] ?? ""] *)
Definition ROMAN_at (n : number) : string :=
  match n with
  | NaN => ""
  | Num z => if (z <? 0)%Z then "" else default "" (ROMAN !! Z.to_nat z)
  end.

(** [digits.pop()]: the array without its last element, and that element
    ([undefined] when the array is empty). *)
Definition pop (digits : list ascii) : list ascii * JSValue :=
  match reverse digits with
  | [] => ([], JUndefined)
  | c :: r => (reverse r, JStr (String c ""))
  end.

(** The loop [let i = 3; while (i--) { ... }]: the test reads [i] and then
    decrements it, so the body runs with [i] = 2, 1, 0. *)
Fixpoint roman_loop (i : nat) (digits : list ascii) (roman : string) : list ascii * string :=
  match i with
  | O => (digits, roman)
  | S i' =>
      let '(digits', d) := pop digits in
      let index := number_add (ToNumber d) (Num (Z.of_nat i' * 10)) in
      roman_loop i' digits' (ROMAN_at index +:+ roman)
  end.

(** [Array(n)] raises a [RangeError] unless [n] is an integer in
    [0, 2^32 - 1]. *)
Definition array_length_ok (n : number) : option nat :=
  match n with
  | NaN => None
  | Num z => if (0 <=? z)%Z && (z <=? 4294967295)%Z then Some (Z.to_nat z) else None
  end.

Definition toRomanUpper (num : number) : Completion string :=
  let digits := chars (number_to_string num) in
  let '(digits', roman) := roman_loop 3 digits "" in
  let thousands := number_add (StringToNumber (unchars digits')) (Num 1) in
  match array_length_ok thousands with
  | None => Throw RangeError
  | Some n => Normal (repeat_string "M" (pred n) +:+ roman)
  end.

Definition toRomanLower (num : number) : Completion string :=
  mapC toLowerCase (toRomanUpper num).

Definition ALPH : string := "ABCDEFGHIJKLMNOPQRSTUVWXYZ".

(** One digit of [Number.prototype.toString(26)]: 0-9 then a-p. *)
Definition digit26 (d : N) : ascii :=
  if (d <? 10)%N then ascii_of_N (48 + d) else ascii_of_N (87 + d).

(** The base-26 digits of [n], most significant first; [fuel] bounds the
    number of digits. *)
Fixpoint digits26 (fuel : nat) (n : N) (acc : list ascii) : list ascii :=
  match fuel with
  | O => acc
  | S fuel' =>
      if (n <? 26)%N then digit26 n :: acc
      else digits26 fuel' (n / 26) (digit26 (n mod 26) :: acc)
  end.

(** [n.toString(26)] *)
Definition toString26 (n : number) : string :=
  match n with
  | NaN => "NaN"
  | Num z =>
      let m := Z.abs_N z in
      let body := digits26 (S (N.size_nat m)) m [] in
      unchars (if (z <? 0)%Z then "-"%char :: body else body)
  end.

(** [parseInt(c, 26)] for a one-character string. *)
Definition parseInt26 (c : ascii) : number :=
  if is_digit c then Num (digit_value c)
  else if (97 <=? code c)%nat && (code c <=? 112)%nat then Num (Z.of_nat (code c) - 87)
  else if (65 <=? code c)%nat && (code c <=? 80)%nat then Num (Z.of_nat (code c) - 55)
  else NaN.

(** [ALPH[n]], with [undefined] joined as the empty string. *)
Definition ALPH_at (n : number) : list ascii :=
  match n with
  | NaN => []
  | Num z => if (z <? 0)%Z then [] else option_list (chars ALPH !! Z.to_nat z)
  end.

Definition toAlphUpper (num : number) : string :=
  unchars (concat ((fun c => ALPH_at (parseInt26 c))
                     <$> chars (toString26 (number_add num (Num (-1)))))).

Definition toAlphLower (num : number) : string := toLowerCase (toAlphUpper num).

(** [CONVERTER[style]]: [None] when the table has no such entry (calling
    it then raises a [TypeError]). The five styles are the own properties
    of the table; the members it inherits from [Object.prototype] are not
    numbering styles and are not modelled. *)
Definition CONVERTER (style : string) : option (number -> Completion string) :=
  if String.eqb style "arabic" then Some (fun n => Normal (number_to_string n))
  else if String.eqb style "alph" then Some (fun n => Normal (toAlphLower n))
  else if String.eqb style "Alph" then Some (fun n => Normal (toAlphUpper n))
  else if String.eqb style "roman" then Some toRomanLower
  else if String.eqb style "Roman" then Some toRomanUpper
  else None.

End Numeral.

(** ** The vault tree *)

Module Vault.

(** A file or a folder of the vault. [parent] is [None] for the vault root
    only; [isRoot] is the host's answer to [TFolder.isRoot()]. *)
#[warnings="-register-all"]
Inductive TAbstractFile : Type :=
| TFile (path : string) (parent : option TAbstractFile)
| TFolder (path : string) (isRoot : bool) (parent : option TAbstractFile).

Definition path (f : TAbstractFile) : string :=
  match f with
  | TFile p _ | TFolder p _ _ => p
  end.

Definition parent (f : TAbstractFile) : option TAbstractFile :=
  match f with
  | TFile _ q | TFolder _ _ q => q
  end.

(** [file instanceof TFolder && file.isRoot()] *)
Definition is_root_folder (f : TAbstractFile) : bool :=
  match f with
  | TFile _ _ => false
  | TFolder _ r _ => r
  end.

(** The [while (ancestor)] loop of [getAncestors]: push the node, leave when
    the file the walk started from is the root folder, else go to the parent.
    [stop] is the loop-invariant test on [file]. *)
Fixpoint getAncestors_loop (stop : bool) (ancestor : TAbstractFile) : list TAbstractFile :=
  ancestor ::
    (if stop then []
     else match ancestor with
          | TFile _ q | TFolder _ _ q =>
              match q with
              | Some a => getAncestors_loop stop a
              | None => []
              end
          end).

Definition getAncestors (file : TAbstractFile) : list TAbstractFile :=
  reverse (getAncestors_loop (is_root_folder file) file).

End Vault.

(** ** Profiles *)

Module ProfileData.
Import JS.

Record ProfileMeta : Type := { tags : list string }.

(** [id] is declared a string; the one place that builds a profile from a
    variable that may never have been assigned (the add dialog) can store
    [undefined] there, which is [None]. [body] maps a theorem kind to its
    displayed name. *)
Record Profile : Type := {
  id : option string;
  meta : ProfileMeta;
  body : gmap string string
}.

Definition with_id (p : Profile) (i : option string) : Profile :=
  {| id := i; meta := meta p; body := body p |}.

Definition with_tags (p : Profile) (ts : list string) : Profile :=
  {| id := id p; meta := {| tags := ts |}; body := body p |}.

Definition with_body (p : Profile) (b : gmap string string) : Profile :=
  {| id := id p; meta := meta p; body := b |}.

(** Modelled from the spec: the closed set of theorem kinds
    ([THEOREM_LIKE_ENV_IDs] of the environment table, which is not among the
    sources); the same names key the bodies of [DEFAULT_PROFILES]. *)
Definition THEOREM_LIKE_ENV_IDs : list string :=
  ["axiom"; "definition"; "lemma"; "proposition"; "theorem"; "corollary";
   "claim"; "assumption"; "example"; "exercise"; "conjecture"; "hypothesis";
   "remark"].

Definition English : Profile := {|
  id := Some "English";
  meta := {| tags := ["en"] |};
  body := list_to_map
    [("axiom", "Axiom"); ("definition", "Definition"); ("lemma", "Lemma");
     ("proposition", "Proposition"); ("theorem", "Theorem");
     ("corollary", "Corollary"); ("claim", "Claim");
     ("assumption", "Assumption"); ("example", "Example");
     ("exercise", "Exercise"); ("conjecture", "Conjecture");
     ("hypothesis", "Hypothesis"); ("remark", "Remark")]
|}.

(** The displayed names of the Japanese profile are kept as their UTF-8
    bytes. *)
Definition Japanese : Profile := {|
  id := Some "Japanese";
  meta := {| tags := ["ja"] |};
  body := list_to_map
    [("axiom", "公理"); ("definition", "定義"); ("lemma", "補題");
     ("proposition", "命題"); ("theorem", "定理"); ("corollary", "系");
     ("claim", "主張"); ("assumption", "仮定"); ("example", "例");
     ("exercise", "演習問題"); ("conjecture", "予想"); ("hypothesis", "仮説");
     ("remark", "注")]
|}.

Definition DEFAULT_PROFILES : gmap string Profile :=
  <["English" := English]> (<["Japanese" := Japanese]> ∅).

(** The property name a profile id is stored under ([profiles[id]]). *)
Definition key_of (i : option string) : string :=
  match i with
  | Some s => s
  | None => ToString JUndefined
  end.

End ProfileData.

(** ** The store of settings objects and the plugin instance *)

Module Store.
Import JS.

(** Settings objects are shared and updated in place: they live in a store
    and are named by their position in it. *)
Abbreviation Heap := (list (gmap string JSValue)).

Definition read (h : Heap) (l : nat) : JSObject := default ∅ (h !! l).

(** A new object: its reference and the extended store. *)
Definition alloc (o : JSObject) (h : Heap) : nat * Heap := (length h, (h ++ [o])%list).

(** [o.k = v] *)
Definition set_prop (l : nat) (k : string) (v : JSValue) (h : Heap) : Heap :=
  <[l := <[k := v]> (read h l)]> h.

(** [delete o.k] *)
Definition delete_prop (l : nat) (k : string) (h : Heap) : Heap :=
  <[l := delete k (read h l)]> h.

(** [Object.assign(target, source)]: every own property of [source] is
    written to [target]; an [undefined] source is skipped. *)
Definition Object_assign (target : nat) (source : option nat) (h : Heap) : Heap :=
  match source with
  | None => h
  | Some s => <[target := read h s ∪ read h target]> h
  end.

(** The plugin instance: [settings] maps a location path to its stored
    settings object, [profiles] is [extraSettings.profiles]. *)
Record MathBooster : Type := {
  settings : gmap string nat;
  excludedFiles : list string;
  profiles : gmap string ProfileData.Profile
}.

Definition with_settings (p : MathBooster) (s : gmap string nat) : MathBooster :=
  {| settings := s; excludedFiles := excludedFiles p; profiles := profiles p |}.

Definition with_excludedFiles (p : MathBooster) (e : list string) : MathBooster :=
  {| settings := settings p; excludedFiles := e; profiles := profiles p |}.

Definition with_profiles (p : MathBooster) (t : gmap string ProfileData.Profile) : MathBooster :=
  {| settings := settings p; excludedFiles := excludedFiles p; profiles := t |}.

Definition VAULT_ROOT : string := "/".

(** Modelled from the spec: the recognized options of a configuration (the
    interface that declares them is not among the sources); the settings
    pane of the helper offers the same names, and the profile dialogs the
    last one. *)
Definition recognized_options : list string :=
  ["lang"; "mathCalloutStyle"; "mathCalloutFontInherit"; "titleSuffix";
   "labelPrefix"; "rename"; "numberPrefix"; "numberSuffix"; "numberInit";
   "numberStyle"; "numberDefault"; "refFormat"; "eqNumberPrefix";
   "eqNumberSuffix"; "eqNumberInit"; "eqNumberStyle"; "eqRefPrefix";
   "eqRefSuffix"; "lineByLine"; "profile"].

(** A configuration object in which no recognized option is missing. *)
Definition fully_populated (o : JSObject) : Prop :=
  Forall (fun k => is_Some (o !! k)) recognized_options.

End Store.

(** ** Settings resolver and plugin start-up *)

Module Resolver.
Import JS Vault Store.

Section WithDefaults.

(** The global default configuration object. Its contents are declared in a
    file that is not among the sources, so the object is a parameter: the
    reference [DEFAULT_SETTINGS] into the store. *)
Variable DEFAULT_SETTINGS : nat.

Definition resolveSettings (settings : option nat) (plugin : MathBooster)
    (currentFile : TAbstractFile) (h : Heap) : nat * Heap :=
  let '(resolvedSettings, h) := alloc ∅ h in
  let h := Object_assign resolvedSettings (Some DEFAULT_SETTINGS) h in
  let ancestors := getAncestors currentFile in
  let h := foldl (fun h ancestor =>
                    Object_assign resolvedSettings
                      (Store.settings plugin !! path ancestor) h)
                 h ancestors in
  let h := Object_assign resolvedSettings settings h in
  (resolvedSettings, h).

(** The contents of the object a call returns. *)
Definition resolved (settings : option nat) (plugin : MathBooster)
    (currentFile : TAbstractFile) (h : Heap) : JSObject :=
  let '(r, h') := resolveSettings settings plugin currentFile h in
  read h' r.

(** The persisted blob as [loadData] returns it: [settings] and
    [excludedFiles] may each be missing; the per-location objects of
    [settings] are in the store. *)
Record LoadedData : Type := {
  ld_settings : option (gmap string nat);
  ld_excludedFiles : option (list string)
}.

(** [Object.assign({}, { [VAULT_ROOT]: DEFAULT_SETTINGS }, settings)] on the
    path table: a shallow merge, the stored entry of a path replaces the
    entry before it. *)
Definition merge_settings (loaded : option (gmap string nat)) : gmap string nat :=
  default ∅ loaded ∪ {[VAULT_ROOT := DEFAULT_SETTINGS]}.

(** [excludedFiles] is kept as the list it holds; a blob without the field
    leaves it [undefined], which is read as no excluded file. *)
Definition loadSettings (loadedData : option LoadedData) (plugin : MathBooster) : MathBooster :=
  match loadedData with
  | Some d =>
      with_excludedFiles (with_settings plugin (merge_settings (ld_settings d)))
        (default [] (ld_excludedFiles d))
  | None =>
      with_excludedFiles (with_settings plugin (merge_settings None)) []
  end.

End WithDefaults.

End Resolver.

(** ** Title formatter *)

Module Formatter.
Import JS Numeral Store ProfileData.

(** The [+] operator: text concatenation as soon as one side is a string
    (or an object, whose primitive is a string), numeric addition
    otherwise. *)
Definition js_add (a b : JSValue) : JSValue :=
  let textual v := match v with JStr _ | JRef _ => true | _ => false end in
  if textual a || textual b then JStr (ToString a +:+ ToString b)
  else JNumber (number_add (ToNumber a) (ToNumber b)).

(** [plugin.extraSettings.profiles[settings.profile].body.theorem[settings.type]]:
    reading [body] of a missing profile raises a [TypeError], and so does
    indexing a missing [body.theorem]; [body.theorem] itself is the string
    stored for the kind [theorem]. *)
Definition formatMathCalloutType (plugin : MathBooster) (settings : JSObject) : Completion JSValue :=
  match profiles plugin !! ToString (get settings "profile") with
  | None => Throw TypeError
  | Some profile =>
      match body profile !! "theorem" with
      | None => Throw TypeError
      | Some theorem => Normal (string_get theorem (ToString (get settings "type")))
      end
  end.

Section WithDefaults.

Variable DEFAULT_SETTINGS : nat.

(** [title += ` ${numberPrefix}${numberString}${numberSuffix}`] when
    [numberString] is truthy. *)
Definition append_number (title numberString : JSValue) (settings : JSObject) : JSValue :=
  if ToBoolean numberString then
    js_add title
      (JStr (" " +:+ ToString (get settings "numberPrefix")
                 +:+ ToString numberString
                 +:+ ToString (get settings "numberSuffix")))
  else title.

(** [settings] is the reference to the settings object passed in; the
    result is the completion together with the store the call leaves. *)
Definition formatTitleWithoutSubtitle (plugin : MathBooster) (settings : nat)
    (h : Heap) : Completion JSValue * Heap :=
  match formatMathCalloutType plugin (read h settings) with
  | Throw e => (Throw e, h)
  | Normal title =>
      let number := get (read h settings) "number" in
      if ToBoolean number then
        if loose_eq_string number "auto" then
          if decide (get (read h settings) "_index" = JUndefined) then
            (Normal (append_number title (JStr "") (read h settings)), h)
          else
            let h := set_prop settings "numberInit"
                       (coalesce (get (read h settings) "numberInit") (JNumber (Num 1))) h in
            let num := number_add (ToNumber (get (read h settings) "_index"))
                                  (ToNumber (get (read h settings) "numberInit")) in
            let style := coalesce (get (read h settings) "numberStyle")
                                  (get (read h DEFAULT_SETTINGS) "numberStyle") in
            match CONVERTER (ToString style) with
            | None => (Throw TypeError, h)
            | Some convert =>
                match convert num with
                | Throw e => (Throw e, h)
                | Normal numberString =>
                    (Normal (append_number title (JStr numberString) (read h settings)), h)
                end
            end
        else (Normal (append_number title number (read h settings)), h)
      else (Normal title, h)
  end.

Definition formatTitle (plugin : MathBooster) (settings : nat) (noTitleSuffix : bool)
    (h : Heap) : Completion JSValue * Heap :=
  match formatTitleWithoutSubtitle plugin settings h with
  | (Throw e, h) => (Throw e, h)
  | (Normal title, h) =>
      let o := read h settings in
      let title :=
        if ToBoolean (get o "title")
        then js_add title (JStr (" (" +:+ ToString (get o "title") +:+ ")"))
        else title in
      let title :=
        if negb noTitleSuffix && ToBoolean (get o "titleSuffix")
        then js_add title (get o "titleSuffix")
        else title in
      (Normal title, h)
  end.

End WithDefaults.

End Formatter.

(** ** Profile registry *)

Module Registry.
Import JS Store ProfileData.

(** *** Naming a copy *)

(** The longest run of decimal digits at the head of a text, and the rest. *)
Fixpoint span_digits (l : list ascii) : list ascii * list ascii :=
  match l with
  | c :: r =>
      if is_digit c then let '(ds, rest) := span_digits r in (c :: ds, rest)
      else ([], l)
  | [] => ([], [])
  end.

(** The pattern of [makeIdOfCopy] anchored at the head of a text: an
    opening parenthesis, a digit from 1 to 9, any number of digits, a closing
    parenthesis; the result is the captured digits. The digit run is taken
    greedily; giving digits back cannot help, since the character after a
    shorter run is a digit and not the closing parenthesis. *)
Definition match_here (l : list ascii) : option (list ascii) :=
  match l with
  | "("%char :: c :: r =>
      if is_nonzero_digit c then
        let '(ds, rest) := span_digits r in
        match rest with
        | ")"%char :: _ => Some (c :: ds)
        | _ => None
        end
      else None
  | _ => None
  end.

(** [text.match(pattern)?.[1]]: the captured digits of the leftmost match. *)
Fixpoint regex_search (l : list ascii) : option (list ascii) :=
  match match_here l with
  | Some g => Some g
  | None =>
      match l with
      | [] => None
      | _ :: r => regex_search r
      end
  end.

(** The number one id contributes:
    the captured digits found in [id.slice(oldID.length + 1)], or the text
    [0], read as a number. *)
Definition suffix_number (oldID id : string) : number :=
  match regex_search (chars (slice_from (String.length oldID + 1) id)) with
  | Some g => StringToNumber (unchars g)
  | None => StringToNumber "0"
  end.

(** [Math.max(...numbers)]; [None] stands for [-Infinity], the maximum of no
    number at all. A [NaN] among the arguments makes the result [NaN]. *)
Fixpoint Math_max (numbers : list number) : option number :=
  match numbers with
  | [] => None
  | n :: r =>
      match n, Math_max r with
      | NaN, _ => Some NaN
      | Num z, None => Some (Num z)
      | Num z, Some (Num m) => Some (Num (Z.max z m))
      | Num z, Some NaN => Some NaN
      end
  end.

(** [Object.keys(o)] *)
Definition keys {A : Type} (o : gmap string A) : list string := (map_to_list o).*1.

Definition makeIdOfCopy (oldID : string) (profiles : gmap string Profile) : string :=
  let newId := "Copy of " +:+ oldID in
  if decide (newId ∈ dom profiles) then
    let ids := keys profiles in
    let numbers := suffix_number oldID <$> ids in
    let next :=
      match Math_max numbers with
      | None => "-Infinity"
      | Some max => number_to_string (number_add max (Num 1))
      end in
    newId +:+ " (" +:+ next +:+ ")"
  else newId.

(** *** Locations that use a profile *)

Definition getAffectedFiles (plugin : MathBooster) (h : Heap) (oldProfileId : string) : list string :=
  omap (fun '(path, l) =>
          if loose_eq_string (get (read h l) "profile") oldProfileId
          then Some path else None)
       (map_to_list (settings plugin)).

(** [if (newID)] for an id that is a string or [undefined]. *)
Definition id_truthy (newID : option string) : bool :=
  match newID with
  | Some s => negb (String.eqb s "")
  | None => false
  end.

(** Writing through a path that has no stored object raises a [TypeError]
    and ends the loop. *)
Fixpoint updateProfile (plugin : MathBooster) (paths : list string)
    (newID : option string) (h : Heap) : Completion unit * Heap :=
  match paths with
  | [] => (Normal tt, h)
  | path :: rest =>
      match settings plugin !! path with
      | None => (Throw TypeError, h)
      | Some localSettings =>
          let h :=
            if id_truthy newID
            then set_prop localSettings "profile" (JStr (key_of newID)) h
            else delete_prop localSettings "profile" h in
          updateProfile plugin rest newID h
      end
  end.

(** *** The dialogs *)

(** The dialog on top, with the fields its handlers close over. Dialogs are
    modal: the user acts on the dialog on top only, and the manage dialog is
    drawn again from the table each time control returns to it. *)
Inductive Modal : Type :=
| ManageProfileModal
| AddProfileModal (id : option string)
| EditProfileModal (key : string)
| ConfirmProfileDeletionModal (id : string)
| UpdateProfileModal (deletedID : string) (affected : list string) (newProfileID : string).

(** [proto] is the profile that has become the prototype of the profile
    table, if any; [None]: the table inherits from [Object.prototype], as a
    table does when the plugin starts. The entries of the table are its
    own properties. *)
Record State : Type := {
  ui : Modal;
  plugin : MathBooster;
  heap : Heap;
  proto : option Profile
}.

Definition with_ui (st : State) (m : Modal) : State :=
  {| ui := m; plugin := plugin st; heap := heap st; proto := proto st |}.

Definition with_table (st : State) (t : gmap string Profile) : State :=
  {| ui := ui st; plugin := with_profiles (plugin st) t; heap := heap st;
     proto := proto st |}.

Definition with_heap (st : State) (h : Heap) : State :=
  {| ui := ui st; plugin := plugin st; heap := h; proto := proto st |}.

Definition with_proto (st : State) (q : option Profile) : State :=
  {| ui := ui st; plugin := plugin st; heap := heap st; proto := q |}.

Definition table (st : State) : gmap string Profile := profiles (plugin st).

(** Whether the write [profiles[k] = p] goes to the accessor [__proto__]
    the table inherits from [Object.prototype]: the name is [__proto__] and
    the table has no property of its own under it. *)
Definition sets_prototype (k : string) (t : gmap string Profile) : bool :=
  String.eqb k "__proto__" && negb (bool_decide (k ∈ dom t)).

(** [profiles[k] = p] for a profile object [p]: the entry under [k] is
    written, but for the case of [sets_prototype], in which [p] becomes the
    prototype of the table and no entry is made. *)
Definition assign_profile (k : string) (p : Profile) (st : State) : State :=
  if sets_prototype k (table st) then with_proto st (Some p)
  else with_table st (<[k := p]> (table st)).

(** The copy button of the manage dialog. [JSON.parse(JSON.stringify(x))]
    of a missing entry raises a [SyntaxError]. The id of a copy begins with
    [Copy of], so the write of the copy makes an entry. *)
Definition copyProfile (id : string) (t : gmap string Profile) : Completion (gmap string Profile) :=
  match t !! id with
  | None => Throw SyntaxError
  | Some p =>
      let newId := makeIdOfCopy id t in
      Normal (<[newId := with_id p (Some newId)]> t)
  end.

(** The body of a new profile: every theorem kind with an empty name. *)
Definition newBody : gmap string string :=
  list_to_map ((fun envID => (envID, "")) <$> THEOREM_LIKE_ENV_IDs).

(** The add button of the add dialog; [id] is the local variable the name
    field writes to, still [undefined] when nothing was typed. *)
Definition addProfile (id : option string) (st : State) : State :=
  assign_profile (key_of id) {| id := id; meta := {| tags := [] |}; body := newBody |} st.

(** The tag field of the edit dialog: the text is cut at the commas and the
    pieces are trimmed; the tags are stored when each piece is empty or made
    of lower-case letters and hyphens only, and left as they are (with a
    notice) otherwise. *)
Definition tag_ok (tag : string) : bool :=
  match chars tag with
  | [] => true
  | cs => forallb (fun c => is_lower c || Ascii.eqb c "-"%char) cs
  end.

Definition editTags (value : string) (p : Profile) : Profile :=
  let tags := (fun piece => trim (unchars piece)) <$> split_chars ","%char (chars value) in
  if forallb tag_ok tags then with_tags p tags else p.

(** The name field of one theorem kind in the edit dialog. *)
Definition editBody (envID value : string) (p : Profile) : Profile :=
  with_body p (<[envID := value]> (body p)).

(** [newID != oldID] for a string [oldID]. *)
Definition id_differs (newID : option string) (oldID : string) : bool :=
  match newID with
  | Some s => negb (String.eqb s oldID)
  | None => true
  end.

(** One round of the loop of [EditProfileModal.onClose]. The loop runs over
    the keys the table had when it started; a key deleted before its turn is
    not visited. *)
Definition rekey_step (st : Completion unit * State) (oldID : string) : Completion unit * State :=
  match st with
  | (Throw e, st) => (Throw e, st)
  | (Normal _, st) =>
      match table st !! oldID with
      | None => (Normal tt, st)
      | Some p =>
          let newID := id p in
          if id_differs newID oldID then
            let st := assign_profile (key_of newID) p st in
            let st := with_table st (delete oldID (table st)) in
            let affected := getAffectedFiles (plugin st) (heap st) oldID in
            let '(c, h) := updateProfile (plugin st) affected newID (heap st) in
            (c, with_heap st h)
          else (Normal tt, st)
      end
  end.

Definition rekey_loop (ks : list string) (st : State) : Completion unit * State :=
  foldl rekey_step (Normal tt, st) ks.

Definition EditProfileModal_onClose (st : State) : State :=
  match rekey_loop (keys (table st)) st with
  | (Normal _, st) => with_ui st ManageProfileModal
  | (Throw _, st) => st
  end.

(** [UpdateProfileModal.onClose]: the profile is deleted and the
    confirmation dialog below is closed, which reopens the manage dialog. *)
Definition UpdateProfileModal_onClose (deletedID : string) (st : State) : State :=
  with_ui (with_table st (delete deletedID (table st))) ManageProfileModal.

Inductive Event : Type :=
| ClickAdd
| ClickEdit (id : string)
| ClickCopy (id : string)
| ClickDelete (id : string)
| TypeNewName (value : string)
| ConfirmAdd
| CancelAdd
| TypeName (value : string)
| TypeTags (value : string)
| TypeDisplayedName (envID value : string)
| CloseEdit
| ConfirmDelete
| CancelDelete
| SelectProfile (value : string)
| ConfirmUpdate
| CancelUpdate.

(** One user action. [None]: the dialog on top offers no such control.
    A handler that raises leaves the dialog open on the state reached.
    The rows of the manage dialog are the entries of the table. Once a
    profile is the prototype of the table ([proto] is not [None]), the
    dialogs see what the table inherits from it as well: the manage dialog
    lists [id], [meta] and [body], rows that are no profiles, and the edit
    dialog that an add under [__proto__] opens edits the prototype. This
    is not followed here: the properties of sequences of actions are
    stated for the sequences that leave the prototype alone. *)
Definition step (e : Event) (st : State) : option State :=
  match ui st, e with
  | ManageProfileModal, ClickAdd => Some (with_ui st (AddProfileModal None))
  | ManageProfileModal, ClickEdit id =>
      if decide (id ∈ dom (table st)) then Some (with_ui st (EditProfileModal id)) else None
  | ManageProfileModal, ClickCopy id =>
      if decide (id ∈ dom (table st)) then
        match copyProfile id (table st) with
        | Normal t => Some (with_table st t)
        | Throw _ => Some st
        end
      else None
  | ManageProfileModal, ClickDelete id =>
      if decide (id ∈ dom (table st)) then Some (with_ui st (ConfirmProfileDeletionModal id))
      else None
  | AddProfileModal _, TypeNewName value => Some (with_ui st (AddProfileModal (Some value)))
  | AddProfileModal id, ConfirmAdd =>
      Some (with_ui (addProfile id st) (EditProfileModal (key_of id)))
  | AddProfileModal _, CancelAdd => Some (with_ui st ManageProfileModal)
  | EditProfileModal key, TypeName value =>
      Some (with_table st (alter (fun p => with_id p (Some value)) key (table st)))
  | EditProfileModal key, TypeTags value =>
      Some (with_table st (alter (editTags value) key (table st)))
  | EditProfileModal key, TypeDisplayedName envID value =>
      if decide (envID ∈ THEOREM_LIKE_ENV_IDs)
      then Some (with_table st (alter (editBody envID value) key (table st)))
      else None
  | EditProfileModal _, CloseEdit => Some (EditProfileModal_onClose st)
  | ConfirmProfileDeletionModal id, ConfirmDelete =>
      let affected := getAffectedFiles (plugin st) (heap st) id in
      match affected with
      | [] => Some (with_ui (with_table st (delete id (table st))) ManageProfileModal)
      | _ => Some (with_ui st (UpdateProfileModal id affected ""))
      end
  | ConfirmProfileDeletionModal _, CancelDelete => Some (with_ui st ManageProfileModal)
  | UpdateProfileModal deletedID affected _, SelectProfile value =>
      if decide (value = "" ∨ (value ∈ dom (table st) ∧ value ≠ deletedID))
      then Some (with_ui st (UpdateProfileModal deletedID affected value))
      else None
  | UpdateProfileModal deletedID affected newProfileID, ConfirmUpdate =>
      match updateProfile (plugin st) affected (Some newProfileID) (heap st) with
      | (Normal _, h) => Some (UpdateProfileModal_onClose deletedID (with_heap st h))
      | (Throw _, h) => Some (with_heap st h)
      end
  | UpdateProfileModal deletedID _ _, CancelUpdate =>
      Some (UpdateProfileModal_onClose deletedID st)
  | _, _ => None
  end.

(** A sequence of user actions, each offered by the dialog then on top. *)
Fixpoint run (es : list Event) (st : State) : option State :=
  match es with
  | [] => Some st
  | e :: r =>
      match step e st with
      | Some st' => run r st'
      | None => None
      end
  end.

End Registry.

(** ** Reference notions the properties are stated against *)

Module Reference.
Import JS Vault Store ProfileData Resolver.

(** The parent chain of a location, nearest first: the location itself, its
    folder, ..., the vault root. *)
Fixpoint chain (f : TAbstractFile) : list TAbstractFile :=
  f :: match f with
       | TFile _ q | TFolder _ _ q =>
           match q with
           | Some a => chain a
           | None => []
           end
       end.

(** The host keeps the root folder at the top of the tree. *)
Definition root_on_top (f : TAbstractFile) : Prop :=
  is_root_folder f = true → parent f = None.

(** The partial configuration stored for a location, if any. *)
Definition stored (plugin : MathBooster) (h : Heap) (a : TAbstractFile) : option JSObject :=
  read h <$> (settings plugin !! path a).

(** The configuration layers that apply at a location, closest first: the
    per-block override, the stored configurations from the location up to
    the root, the global default. *)
Definition layers (DEFAULT_SETTINGS : nat) (blockOverride : option nat)
    (plugin : MathBooster) (file : TAbstractFile) (h : Heap) : list JSObject :=
  (option_list (read h <$> blockOverride)
     ++ omap (stored plugin h) (chain file)
     ++ [read h DEFAULT_SETTINGS])%list.

(** The value an option gets from the closest layer that defines it. *)
Fixpoint closest_defining (k : string) (ls : list JSObject) : option JSValue :=
  match ls with
  | [] => None
  | o :: r =>
      match o !! k with
      | Some v => Some v
      | None => closest_defining k r
      end
  end.

(** Every entry of a profile table sits under the key that is its own id. *)
Definition key_id_consistent (t : gmap string Profile) : Prop :=
  ∀ k p, t !! k = Some p → id p = Some k.

(** The table while the edit dialog is open on the entry stored under
    [key]: every other entry sits under its own id; the entry under edit may
    carry any name, and no name at all only when it is the entry the add
    dialog stored under the key of [undefined]. *)
Definition edit_consistent (key : string) (t : gmap string Profile) : Prop :=
  ∀ k p, t !! k = Some p →
         id p = Some k ∨ (k = key ∧ (id p = None → key = key_of None)).

(** The table as the dialog on top requires it. *)
Definition registry_inv (m : Registry.Modal) (t : gmap string Profile) : Prop :=
  match m with
  | Registry.EditProfileModal key => edit_consistent key t
  | _ => key_id_consistent t
  end.

(** A location whose configuration names the profile [i]. *)
Definition references (plugin : MathBooster) (h : Heap) (i : string) : Prop :=
  ∃ path l, settings plugin !! path = Some l ∧ get (read h l) "profile" = JStr i.

(** A profile id that some location names while the table has no such
    profile. *)
Definition dangling (plugin : MathBooster) (h : Heap) (i : string) : Prop :=
  references plugin h i ∧ profiles plugin !! i = None.

(** What [Object.assign] adds to the accumulated object. *)
Definition assign_from (h : Heap) (source : option nat) (acc : JSObject) : JSObject :=
  match source with
  | Some s => read h s ∪ acc
  | None => acc
  end.

(** The contents of the object [resolveSettings] returns. *)
Definition merged (DEFAULT_SETTINGS : nat) (settings : option nat) (plugin : MathBooster)
    (currentFile : TAbstractFile) (h : Heap) : JSObject :=
  assign_from h settings
    (foldl (fun acc ancestor => assign_from h (Store.settings plugin !! path ancestor) acc)
       (read h DEFAULT_SETTINGS ∪ ∅) (getAncestors currentFile)).

(** The entry the persisted blob stores under the root path, if any. *)
Definition stored_root (loaded : option LoadedData) : option nat :=
  match loaded with
  | Some d =>
      match ld_settings d with
      | Some m => m !! VAULT_ROOT
      | None => None
      end
  | None => None
  end.





(** The state of the loop of [EditProfileModal.onClose] before the keys
    [ks] are visited. *)
Definition rekey_pending (key : string) (ks : list string) (t : gmap string Profile) : Prop :=
  key_id_consistent t
  ∨ (edit_consistent key t ∧ (is_Some (t !! key) → key ∈ ks)).

(** The number a base-26 numeral (digits 0-9 then a-p) stands for. *)
Definition digit26_value (c : ascii) : N :=
  if is_digit c then N_of_ascii c - 48 else N_of_ascii c - 87.

Definition value26 (l : list ascii) : N :=
  foldl (fun v c => 26 * v + digit26_value c)%N 0%N l.

(** The bijective base-26 letter enumeration a, b, ..., z, aa, ab, ...:
    the letters of [n], last letter first in [acc]; [fuel] bounds the
    number of letters. *)
Fixpoint letters26 (fuel : nat) (n : N) (acc : list ascii) : list ascii :=
  match fuel with
  | O => acc
  | S fuel' =>
      if (n =? 0)%N then acc
      else letters26 fuel' ((n - 1) / 26) (ascii_of_N (97 + (n - 1) mod 26) :: acc)
  end.

Definition bijective26 (n : N) : string := unchars (letters26 (S (N.size_nat n)) n []).

End Reference.

(** ** Sample data *)

Module Examples.
Import JS Vault Store ProfileData Resolver.

(** A fully populated configuration, stored at reference 0 of the sample
    stores; its rename table is the object at reference 1. *)
Definition sample_defaults : JSObject :=
  list_to_map
    [("lang", JStr "en"); ("mathCalloutStyle", JStr "custom");
     ("mathCalloutFontInherit", JBool false); ("titleSuffix", JStr ".");
     ("labelPrefix", JStr ""); ("rename", JRef 1); ("numberPrefix", JStr "");
     ("numberSuffix", JStr ""); ("numberInit", JNumber (Num 1));
     ("numberStyle", JStr "arabic"); ("numberDefault", JStr "auto");
     ("refFormat", JStr "Type + number (+ title)");
     ("eqNumberPrefix", JStr "("); ("eqNumberSuffix", JStr ")");
     ("eqNumberInit", JNumber (Num 1)); ("eqNumberStyle", JStr "arabic");
     ("eqRefPrefix", JStr ""); ("eqRefSuffix", JStr "");
     ("lineByLine", JBool true); ("profile", JStr "English")].

(** A vault: [notes/a.md] in the folder [notes], [b.md] next to it. *)
Definition vault_root : TAbstractFile := TFolder VAULT_ROOT true None.
Definition notes : TAbstractFile := TFolder "notes" false (Some vault_root).
Definition a_md : TAbstractFile := TFile "notes/a.md" (Some notes).
Definition b_md : TAbstractFile := TFile "b.md" (Some vault_root).

(** The root stores [numberStyle] arabic (reference 2), the folder [notes]
    stores roman (reference 3). *)
Definition layered_heap : Heap :=
  [sample_defaults; ∅; {["numberStyle" := JStr "arabic"]};
   {["numberStyle" := JStr "roman"]}].

Definition layered_plugin : MathBooster := {|
  settings := <[VAULT_ROOT := 2]> (<["notes" := 3]> ∅);
  excludedFiles := [];
  profiles := DEFAULT_PROFILES
|}.

(** A persisted blob whose root entry (reference 2) has lost its [profile]
    option. *)
Definition partial_root_heap : Heap :=
  [sample_defaults; ∅; delete "profile" sample_defaults].

Definition partial_root_blob : LoadedData := {|
  ld_settings := Some {[VAULT_ROOT := 2]};
  ld_excludedFiles := Some []
|}.

Definition fresh_plugin : MathBooster := {|
  settings := ∅;
  excludedFiles := [];
  profiles := DEFAULT_PROFILES
|}.

(** The settings of a theorem block numbered automatically in roman style,
    counting from 1, with sequence index [index] (reference 2). *)
Definition roman_block (index : Z) : JSObject :=
  list_to_map
    [("type", JStr "theorem"); ("number", JStr "auto");
     ("_index", JNumber (Num index)); ("numberStyle", JStr "roman");
     ("numberInit", JNumber (Num 1))]
  ∪ sample_defaults.

Definition roman_heap (index : Z) : Heap := [sample_defaults; ∅; roman_block index].

(** The settings of a block as written in a note, not resolved: no
    [numberInit] (reference 2). *)
Definition bare_block : JSObject :=
  list_to_map
    [("type", JStr "theorem"); ("profile", JStr "English");
     ("number", JStr "auto"); ("_index", JNumber (Num 0))].

Definition bare_heap : Heap := [sample_defaults; ∅; bare_block].

(** Profile tables for the copy button. *)
Definition named (i : string) : Profile := with_id English (Some i).

Definition copies_of_English : gmap string Profile :=
  <["Copy of English (2)" := named "Copy of English (2)"]>
    (<["Copy of English" := named "Copy of English"]> DEFAULT_PROFILES).

Definition notes_table : gmap string Profile :=
  <["Notes (1)" := named "Notes (1)"]> ∅.

Definition notes_copies : gmap string Profile :=
  <["Copy of Notes (1) (2)" := named "Copy of Notes (1) (2)"]>
    (<["Copy of Notes (1)" := named "Copy of Notes (1)"]> notes_table).

(** The manage dialog over a profile table; the root location (reference 0)
    uses the profile English. *)
Definition manage_state (t : gmap string Profile) : Registry.State := {|
  Registry.ui := Registry.ManageProfileModal;
  Registry.plugin := {| settings := {[VAULT_ROOT := 0]};
                        excludedFiles := [];
                        profiles := t |};
  Registry.heap := [sample_defaults; ∅];
  Registry.proto := None
|}.

End Examples.

(** ** Text, array and range utilities *)

Module Utils.
Import JS.

Definition LF : ascii := Ascii.ascii_of_nat 10.
Definition CR : ascii := Ascii.ascii_of_nat 13.

(** [pieces.join(sep)] *)
Definition join_chars (sep : list ascii) (pieces : list (list ascii)) : list ascii :=
  match pieces with
  | [] => []
  | p :: r => p ++ concat ((fun q => sep ++ q) <$> r)
  end.

Definition increaseQuoteLevel (content : string) : string :=
  let lines := split_chars LF (chars content) in
  let lines := (fun line => chars "> " ++ line) <$> lines in
  unchars (join_chars [LF] lines).

(** [text.split(pattern)] for the pattern of [splitIntoLines], a line feed
    with an optional carriage return before it. *)
Fixpoint splitIntoLines_chars (l : list ascii) : list (list ascii) :=
  let push c pieces :=
    match pieces with
    | piece :: rest => (c :: piece) :: rest
    | [] => [[c]]
    end in
  match l with
  | [] => [[]]
  | c :: r =>
      if Ascii.eqb c LF then [] :: splitIntoLines_chars r
      else if Ascii.eqb c CR then
        match r with
        | c' :: r' =>
            if Ascii.eqb c' LF then [] :: splitIntoLines_chars r'
            else push c (splitIntoLines_chars r)
        | [] => push c (splitIntoLines_chars r)
        end
      else push c (splitIntoLines_chars r)
  end.

Definition splitIntoLines (text : string) : list string :=
  unchars <$> splitIntoLines_chars (chars text).

(** A range of document positions. *)
Record Range : Type := { from : Z; to : Z }.

Definition hasOverlap (range1 range2 : Range) : bool :=
  (from range1 <=? to range2)%Z && (from range2 <=? to range1)%Z.

Section Arrays.

Context {A : Type} `{EqDecision A}.






End Arrays.

(** *** Callout headers *)

(** The characters the pattern dot accepts: all but the line terminators
    (the line and paragraph separators beyond ASCII are not distinguished
    in this byte-level text). *)
Definition is_dot (c : ascii) : bool := negb (Ascii.eqb c LF || Ascii.eqb c CR).

Fixpoint skip_blanks (l : list ascii) : list ascii :=
  match l with
  | c :: r => if Ascii.eqb c " "%char then skip_blanks r else l
  | [] => []
  end.

Fixpoint skip_spaces (l : list ascii) : list ascii :=
  match l with
  | c :: r => if is_space c then skip_spaces r else l
  | [] => []
  end.

(** The longest run the dot-star accepts, and what follows it. *)
Fixpoint dot_run (l : list ascii) : list ascii * list ascii :=
  match l with
  | c :: r =>
      if is_dot c then let '(run, rest) := dot_run r in (c :: run, rest)
      else ([], l)
  | [] => ([], [])
  end.

(** A text cut at its last closing bracket. *)
Fixpoint cut_last_bracket (l : list ascii) : option (list ascii * list ascii) :=
  match l with
  | [] => None
  | c :: r =>
      match cut_last_bracket r with
      | Some (before, after) => Some (c :: before, after)
      | None => if Ascii.eqb c "]"%char then Some ([], r) else None
      end
  end.

(** A literal at the head of a text. *)
Fixpoint expect (lit : list ascii) (l : list ascii) : option (list ascii) :=
  match lit, l with
  | [], _ => Some l
  | a :: lit', c :: r => if Ascii.eqb a c then expect lit' r else None
  | _ :: _, [] => None
  end.

(** [MATH_CALLOUT_PATTERN] anchored at the head of a text: a greater-than
    sign, blanks, [[!], blanks, [math], blanks, a bar, then the longest
    dot run up to a closing bracket (group 1) and the dot run after it
    (group 2). The blank runs are greedy and cannot usefully give back,
    the character after a shorter run being a blank. *)
Definition callout_here (l : list ascii) : option (list ascii * list ascii) :=
  match expect (chars ">") l with
  | None => None
  | Some l =>
      match expect (chars "[!") (skip_blanks l) with
      | None => None
      | Some l =>
          match expect (chars "math") (skip_blanks l) with
          | None => None
          | Some l =>
              match expect (chars "|") (skip_blanks l) with
              | None => None
              | Some l => cut_last_bracket (dot_run l).1
              end
          end
      end
  end.

(** [MATH_CALLOUT_PATTERN.exec(line)]: groups 1 and 2 of the leftmost
    match. *)
Fixpoint callout_search (l : list ascii) : option (list ascii * list ascii) :=
  match callout_here l with
  | Some g => Some g
  | None =>
      match l with
      | [] => None
      | _ :: r => callout_search r
      end
  end.

Definition matchMathCallout (line : string) : option (string * string) :=
  if String.eqb line "" then None
  else match callout_search (chars line) with
       | Some (g1, g2) => Some (unchars g1, unchars g2)
       | None => None
       end.

Section Reading.

(** [JSON.parse] is the host's; the settings it returns are of a type [S]
    left open. *)
Context {S : Type} (JSON_parse : string -> Completion S).

(** [None] is the [undefined] the functions return for a line that is no
    callout header. *)
Definition readMathCalloutSettingsAndTitle (line : string) : Completion (option (S * string)) :=
  match matchMathCallout line with
  | Some (g1, g2) =>
      bindC (JSON_parse g1) (fun settings => Normal (Some (settings, trim g2)))
  | None => Normal None
  end.

Definition readMathCalloutSettings (line : string) : Completion (option S) :=
  mapC (fun result => fst <$> result) (readMathCalloutSettingsAndTitle line).

Definition readMathCalloutTitle (line : string) : Completion (option string) :=
  mapC (fun result => snd <$> result) (readMathCalloutSettingsAndTitle line).

End Reading.

(** *** Quote symbols *)

(** [quoteLevel] times a greater-than sign followed by white space, at the
    head of a text: what follows. *)
Fixpoint quotes_here (quoteLevel : nat) (l : list ascii) : option (list ascii) :=
  match quoteLevel with
  | O => Some l
  | S n =>
      match l with
      | c :: r => if Ascii.eqb c ">"%char then quotes_here n (skip_spaces r) else None
      | [] => None
      end
  end.

Fixpoint quotes_search (quoteLevel : nat) (l : list ascii) : option (list ascii) :=
  match quotes_here quoteLevel l with
  | Some rest => Some (dot_run rest).1
  | None =>
      match l with
      | [] => None
      | _ :: r => quotes_search quoteLevel r
      end
  end.

(** [nodeTextQuoteSymbolTrimmed] as a function of the text of the node
    ([nodeText(node, state)], which the editor provides): the last group of
    the leftmost match of the pattern built from [quoteLevel]. *)
Definition quoteSymbolTrimmed (text : string) (quoteLevel : nat) : option string :=
  unchars <$> quotes_search quoteLevel (chars text).

End Utils.

(** ** The vault seen from a folder down *)

Module Tree.
Import JS.

(** A file with its extension, or a folder with its children. *)
#[warnings="-register-all"]
Inductive Node : Type :=
| File (path extension : string)
| Folder (path : string) (children : list Node).

(** [iterDescendantFiles] with a callback that records its argument: the
    files handed to the callback, in call order. *)
Fixpoint iterDescendantFiles (file : Node) (extension : option string) : list Node :=
  match file with
  | File _ e =>
      match extension with
      | None => [file]
      | Some x => if String.eqb e x then [file] else []
      end
  | Folder _ children =>
      (fix each (cs : list Node) : list Node :=
         match cs with
         | [] => []
         | child :: rest => iterDescendantFiles child extension ++ each rest
         end) children
  end.

Definition has_extension (x : string) (n : Node) : bool :=
  match n with
  | File _ e => String.eqb e x
  | Folder _ _ => false
  end.

End Tree.

(** ** Ancestry in the vault tree *)

Module Ancestry.
Import JS Vault.

(** [file1 == file2] on files and folders: the vault holds one object per
    node, so two references are the same object when they are the same
    node, parent chain included. *)
Fixpoint file_eqb (a b : TAbstractFile) : bool :=
  match a, b with
  | TFile p q, TFile p' q' =>
      String.eqb p p'
      && match q, q' with
         | Some x, Some y => file_eqb x y
         | None, None => true
         | _, _ => false
         end
  | TFolder p r q, TFolder p' r' q' =>
      String.eqb p p' && Bool.eqb r r'
      && match q, q' with
         | Some x, Some y => file_eqb x y
         | None, None => true
         | _, _ => false
         end
  | _, _ => false
  end.

(** How a call ends: with a value, with an exception, or not at all. *)
Inductive Outcome : Type :=
| Returns (b : bool)
| Raises (e : JSError)
| Diverges.

(** The [while (true)] loop of [isEqualToOrChildOf] from the value
    [ancestor] holds. A [null] ancestor is neither [file2] nor truthy: the
    round changes nothing and the loop goes on for ever. An ancestor that
    is a file has no [isRoot] to call. *)
Fixpoint isEqualToOrChildOf_round (file2 : TAbstractFile)
    (ancestor : TAbstractFile) : Outcome :=
  if file_eqb ancestor file2 then Returns true
  else match ancestor with
       | TFile _ _ => Raises TypeError
       | TFolder _ r q =>
           if r then Returns false
           else match q with
                | Some a => isEqualToOrChildOf_round file2 a
                | None => Diverges
                end
       end.

Definition isEqualToOrChildOf_loop (file2 : TAbstractFile)
    (ancestor : option TAbstractFile) : Outcome :=
  match ancestor with
  | Some a => isEqualToOrChildOf_round file2 a
  | None => Diverges
  end.

Definition isEqualToOrChildOf (file1 file2 : TAbstractFile) : Outcome :=
  if file_eqb file1 file2 then Returns true
  else if is_root_folder file2 then Returns true
  else isEqualToOrChildOf_loop file2 (parent file1).

(** Every node above a location is a folder, and the walk upwards ends at
    a root folder, which has no parent. *)
Fixpoint folders_to_root (a : TAbstractFile) : Prop :=
  match a with
  | TFolder _ r q =>
      if r then q = None
      else match q with
           | Some a' => folders_to_root a'
           | None => False
           end
  | TFile _ _ => False
  end.

Definition under_root (q : option TAbstractFile) : Prop :=
  match q with
  | Some a => folders_to_root a
  | None => False
  end.

(** The elements of a list next to each other are child and parent, the
    parent first. *)
Fixpoint parent_linked (l : list TAbstractFile) : Prop :=
  match l with
  | a :: (b :: _) as r => parent b = Some a ∧ parent_linked r
  | _ => True
  end.

End Ancestry.

(** ** Labels *)

Module Labels.
Import JS Store Formatter.

Section WithEnvs.

(** The table of theorem kinds is declared in a file that is not among the
    sources, so it is a parameter: [THEOREM_LIKE_ENVs] maps the id of a
    kind to the [prefix] of its entry. *)
Variable THEOREM_LIKE_ENVs : gmap string string.


End WithEnvs.

End Labels.

(** ** Settings helpers *)

Module Helper.
Import JS Store.

(** The callback [getCallback(name)] returns, applied to [value]: the
    object literal is a new object of the store, merged into the settings
    object of the helper. Notifying the metadata cache and saving do not
    touch the settings objects. *)
Definition getCallback (settings : nat) (name : string) (value : JSValue)
    (h : Heap) : Heap :=
  let '(source, h) := alloc {[name := value]} h in
  Object_assign settings (Some source) h.

(** [s.replaceAll(a, b)] for one-character texts [a] and [b]. *)
Definition replaceAll_char (a b : ascii) (l : list ascii) : list ascii :=
  (fun c => if Ascii.eqb c a then b else c) <$> l.

(** [s.replaceAll("'s", "")]: the occurrences are taken from the left and
    do not overlap. *)
Fixpoint remove_possessive (l : list ascii) : list ascii :=
  match l with
  | [] => []
  | c :: r =>
      if Ascii.eqb c "'"%char then
        match r with
        | c' :: r' =>
            if Ascii.eqb c' "s"%char then remove_possessive r'
            else c :: remove_possessive r
        | [] => [c]
        end
      else c :: remove_possessive r
  end.

(** The characters the last pattern of the title handler keeps: lower-case
    letters, the digits 0 and 1, the hyphen. *)
Definition label_char (c : ascii) : bool :=
  is_lower c || Ascii.eqb c "0"%char || Ascii.eqb c "1"%char || Ascii.eqb c "-"%char.

(** The label the title field of [MathCalloutSettingsHelper] derives from
    the title typed. *)
Definition labelInit (title : string) : string :=
  let labelInit :=
    toLowerCase (unchars (remove_possessive (replaceAll_char " "%char "-"%char (chars title)))) in
  unchars (List.filter label_char (chars labelInit)).

End Helper.

(** ** The tag field of the edit dialog *)

Module Tags.
Import JS Utils ProfileData Registry.

(** The text the tag field shows when the edit dialog opens:
    [tags.join(", ")]. *)
Definition shownTags (tags : list string) : string :=
  unchars (join_chars (chars ", ") (chars <$> tags)).

(** A profile as the dialogs are meant to keep it: every tag is empty or
    made of lower-case letters and hyphens, and every theorem kind has a
    displayed name. *)
Definition profile_ok (p : Profile) : Prop :=
  Forall (fun tag => tag_ok tag = true) (tags (meta p))
  ∧ Forall (fun envID => is_Some (body p !! envID)) THEOREM_LIKE_ENV_IDs.

Definition table_ok (t : gmap string Profile) : Prop :=
  map_Forall (fun _ p => profile_ok p) t.

End Tags.

(** ** Reading numerals back *)

Module NumeralReference.
Import JS.

#[global] Instance Completion_eq_dec {A : Type} `{EqDecision A} : EqDecision (Completion A).
Proof. solve_decision. Defined.

(** The value of a Roman symbol, upper case. *)
Definition roman_symbol (c : ascii) : Z :=
  if Ascii.eqb c "I" then 1
  else if Ascii.eqb c "V" then 5
  else if Ascii.eqb c "X" then 10
  else if Ascii.eqb c "L" then 50
  else if Ascii.eqb c "C" then 100
  else if Ascii.eqb c "D" then 500
  else if Ascii.eqb c "M" then 1000
  else 0.

(** The number a Roman numeral stands for: a symbol counts negatively when
    a greater one follows it. *)
Fixpoint roman_value (l : list ascii) : Z :=
  match l with
  | [] => 0
  | c :: r =>
      match r with
      | c' :: _ =>
          if (roman_symbol c <? roman_symbol c')%Z
          then roman_value r - roman_symbol c
          else roman_value r + roman_symbol c
      | [] => roman_symbol c
      end
  end%Z.

(** The number a text of capital letters stands for when A to Z are read as
    the digits 0 to 25 of base 26. *)
Definition alph_value (l : list ascii) : N :=
  foldl (fun v c => 26 * v + (N_of_ascii c - 65))%N 0%N l.

(** The number the digits of a decimal numeral stand for, after [acc]. *)
Fixpoint uint_value (acc : Z) (d : Decimal.uint) : Z :=
  match d with
  | Decimal.Nil => acc
  | Decimal.D0 d => uint_value (10 * acc) d
  | Decimal.D1 d => uint_value (10 * acc + 1) d
  | Decimal.D2 d => uint_value (10 * acc + 2) d
  | Decimal.D3 d => uint_value (10 * acc + 3) d
  | Decimal.D4 d => uint_value (10 * acc + 4) d
  | Decimal.D5 d => uint_value (10 * acc + 5) d
  | Decimal.D6 d => uint_value (10 * acc + 6) d
  | Decimal.D7 d => uint_value (10 * acc + 7) d
  | Decimal.D8 d => uint_value (10 * acc + 8) d
  | Decimal.D9 d => uint_value (10 * acc + 9) d
  end%Z.

End NumeralReference.

(** ** Text with inline math *)

Module MathText.
Import JS Utils.

(** What [renderTextWithMath] collects: a piece of plain text, or the span
    rendered from a math string (the rendering itself is the host's). *)
Inductive Element : Type :=
| TextPiece (text : string)
| MathSpan (mathString : string).

(** The pattern of [renderTextWithMath] after its opening dollar sign: the
    shortest run of characters, none a line terminator, the last one no
    white space, that a dollar sign follows; the result is the run and the
    text after the closing dollar sign. [seen] is the character before the
    current one, if the run has begun. *)
Fixpoint math_body (seen : option ascii) (l : list ascii) : option (list ascii * list ascii) :=
  match l with
  | [] => None
  | c :: r =>
      if Ascii.eqb c "$"%char
         && match seen with Some p => negb (is_space p) | None => false end
      then Some ([], r)
      else if is_dot c then
        match math_body (Some c) r with
        | Some (body, rest) => Some (c :: body, rest)
        | None => None
        end
      else None
  end.

(** [elements.push(source.slice(textFrom, textTo))], guarded by
    [textTo > textFrom]. *)
Definition push_text (pending : list ascii) : list Element :=
  match pending with
  | [] => []
  | _ => [TextPiece (unchars pending)]
  end.

(** The loop over the matches of the pattern, from the left. [pending] is
    the plain text since the last match; [skip] counts the characters of
    the current match still to pass ([mathPattern.lastIndex] lies that far
    ahead). *)
Fixpoint render_loop (skip : nat) (pending : list ascii) (l : list ascii) : list Element :=
  match l with
  | [] => push_text pending
  | c :: r =>
      match skip with
      | S k => render_loop k pending r
      | O =>
          if Ascii.eqb c "$"%char then
            match math_body None r with
            | Some (body, _) =>
                push_text pending
                  ++ MathSpan (unchars body) :: render_loop (S (length body)) [] r
            | None => render_loop 0 (pending ++ [c]) r
            end
          else render_loop 0 (pending ++ [c]) r
      end
  end.

Definition renderTextWithMath (source : string) : list Element :=
  render_loop 0 [] (chars source).

(** The source text an element stands for. *)
Definition shown (e : Element) : list ascii :=
  match e with
  | TextPiece text => chars text
  | MathSpan mathString => "$"%char :: chars mathString ++ ["$"%char]
  end.

(** A piece of text is not empty; a math string is not empty, holds no
    line terminator and does not end in white space. *)
Definition well_cut (e : Element) : Prop :=
  match e with
  | TextPiece text => text ≠ ""
  | MathSpan mathString =>
      Forall (fun c => is_dot c = true) (chars mathString)
      ∧ ∃ c, last (chars mathString) = Some c ∧ is_space c = false
  end.

End MathText.

(** ** Reference notions for the utilities *)

Module UtilsReference.
Import JS Utils.

(** A text with every carriage return that stands before a line feed
    removed. *)
Fixpoint drop_cr_before_lf (l : list ascii) : list ascii :=
  match l with
  | [] => []
  | c :: r =>
      if Ascii.eqb c CR then
        match r with
        | c' :: _ => if Ascii.eqb c' LF then drop_cr_before_lf r else c :: drop_cr_before_lf r
        | [] => [c]
        end
      else c :: drop_cr_before_lf r
  end.

(** A range that has a first and a last position. *)
Definition proper (r : Range) : Prop := (from r ≤ to r)%Z.

(** Text within ASCII, where the byte-level functions above agree with the
    host's on white space and letter case. *)
Definition ascii_text (l : list ascii) : Prop := Forall (fun c => code c < 128) l.

(** A stand-in for [JSON.parse] that accepts the empty object only. *)
Definition parse (s : string) : Completion nat :=
  if String.eqb s "{}" then Normal 0 else Throw SyntaxError.

End UtilsReference.

(** ** Further sample data *)

Module Samples.
Import JS Vault Store ProfileData Resolver.






End Samples.

(** * Properties *)

(** ** Settings resolution *)

Module ResolverProps.
Import JS Vault Store Resolver Reference.

(** *** The store while a fresh object is being filled *)

Lemma read_app_new (h : Heap) (x : JSObject) :
  read (h ++ [x]) (length h) = x.
Proof.
  unfold read. rewrite lookup_app_r by lia.
  by rewrite Nat.sub_diag.
Qed.

Lemma read_app_old (h : Heap) (x : JSObject) (l : nat) :
  l < length h → read (h ++ [x]) l = read h l.
Proof. intros Hl. unfold read. by rewrite lookup_app_l. Qed.

Lemma read_out_of_range (h : Heap) (l : nat) :
  length h ≤ l → read h l = ∅.
Proof. intros Hl. unfold read. by rewrite lookup_ge_None_2. Qed.

Lemma insert_app_new (h : Heap) (x y : JSObject) :
  <[length h := y]> (h ++ [x]) = h ++ [y].
Proof.
  rewrite insert_app_r_alt by lia.
  by rewrite Nat.sub_diag.
Qed.

(** Merging a source into the fresh object at the end of the store: the
    source contributes the properties it had in the store before. *)
Lemma Object_assign_fresh (h : Heap) (x : JSObject) (s : nat) :
  Object_assign (length h) (Some s) (h ++ [x]) = h ++ [read h s ∪ x].
Proof.
  unfold Object_assign. rewrite read_app_new, insert_app_new.
  do 2 f_equal.
  destruct (decide (s < length h)) as [Hs|Hs].
  - by rewrite read_app_old.
  - rewrite (read_out_of_range h s) by lia.
    rewrite (left_id_L ∅ (∪)).
    destruct (decide (s = length h)) as [->|Hne].
    + rewrite read_app_new. apply (idemp_L (∪)).
    + rewrite read_out_of_range; [apply (left_id_L ∅ (∪))|].
      rewrite length_app; simpl; lia.
Qed.

Lemma Object_assign_fresh_opt (h : Heap) (x : JSObject) (source : option nat) :
  Object_assign (length h) source (h ++ [x]) = h ++ [assign_from h source x].
Proof. destruct source; [apply Object_assign_fresh|done]. Qed.

Section WithDefaults.

Variable DEFAULT_SETTINGS : nat.

Lemma resolveSettings_eq settings plugin currentFile (h : Heap) :
  resolveSettings DEFAULT_SETTINGS settings plugin currentFile h
  = (length h, h ++ [merged DEFAULT_SETTINGS settings plugin currentFile h]).
Proof.
  unfold resolveSettings, alloc, merged.
  rewrite Object_assign_fresh.
  generalize (read h DEFAULT_SETTINGS ∪ ∅ : JSObject) as x.
  induction (getAncestors currentFile) as [|a l IH]; intros x; simpl.
  - by rewrite Object_assign_fresh_opt.
  - rewrite Object_assign_fresh_opt. apply IH.
Qed.

End WithDefaults.

(** *** Layers *)

Lemma getAncestors_loop_chain (f : TAbstractFile) :
  getAncestors_loop false f = chain f.
Proof.
  revert f. fix IH 1. intros [p q|p r q]; simpl; f_equal.
  - destruct q as [a|]; [apply IH|done].
  - destruct q as [a|]; [apply IH|done].
Qed.

(** [getAncestors] lists the parent chain from the root down to the file. *)
Lemma getAncestors_chain (f : TAbstractFile) :
  root_on_top f → getAncestors f = reverse (chain f).
Proof.
  intros Hroot. unfold getAncestors. f_equal.
  destruct (is_root_folder f) eqn:Hr.
  - specialize (Hroot Hr).
    destruct f as [p q|p r q]; simpl in *; subst; done.
  - apply getAncestors_loop_chain.
Qed.

Lemma closest_defining_app (k : string) (l1 l2 : list JSObject) :
  closest_defining k (l1 ++ l2)
  = match closest_defining k l1 with
    | Some v => Some v
    | None => closest_defining k l2
    end.
Proof.
  induction l1 as [|o l1 IH]; simpl; [done|].
  destruct (o !! k); [done|apply IH].
Qed.

Lemma lookup_union_match (a b : JSObject) (k : string) :
  (a ∪ b) !! k = match a !! k with Some v => Some v | None => b !! k end.
Proof. rewrite lookup_union. destruct (a !! k), (b !! k); done. Qed.

Lemma foldl_assign_from_lookup (h : Heap) (f : TAbstractFile → option nat)
    (k : string) (l : list TAbstractFile) (base : JSObject) :
  foldl (fun acc a => assign_from h (f a) acc) base l !! k
  = closest_defining k (omap (fun a => read h <$> f a) (reverse l) ++ [base]).
Proof.
  revert base. induction l as [|a l IH]; intros base; simpl.
  - destruct (base !! k); done.
  - rewrite IH, reverse_cons, omap_app, <- (assoc_L (++)).
    rewrite !closest_defining_app. simpl.
    destruct (closest_defining k (omap _ (reverse l))); [done|].
    destruct (f a) as [s|]; simpl.
    + rewrite lookup_union_match. destruct (read h s !! k), (base !! k); done.
    + destruct (base !! k); done.
Qed.

Lemma resolved_eq D settings plugin file (h : Heap) :
  resolved D settings plugin file h = merged D settings plugin file h.
Proof.
  unfold resolved. rewrite resolveSettings_eq. apply read_app_new.
Qed.

Lemma merged_lookup D settings plugin file (h : Heap) (k : string) :
  root_on_top file →
  merged D settings plugin file h !! k
  = closest_defining k (layers D settings plugin file h).
Proof.
  intros Hroot. unfold merged, layers, stored.
  rewrite getAncestors_chain by done.
  rewrite closest_defining_app.
  destruct settings as [s|]; simpl.
  - rewrite lookup_union_match.
    destruct (read h s !! k) as [v|]; [done|].
    rewrite foldl_assign_from_lookup, reverse_involutive.
    by rewrite (right_id_L ∅ (∪)).
  - rewrite foldl_assign_from_lookup, reverse_involutive.
    by rewrite (right_id_L ∅ (∪)).
Qed.

(** C1. Layer precedence of the resolver. For every location (the root
    folder being on top of the tree) and every option, the object
    [resolveSettings] returns gives the option the value of the closest
    layer that defines it, the layers being, closest first: the per-block
    override, the stored configurations from the location up its parent
    chain to the root, the global default. In particular, when the root
    stores one value for an option and a folder another, a file in that
    folder (storing none itself) resolves to the folder's value and a file
    directly under the root (storing none itself) to the root's. *)
Theorem resolveSettings_layer_precedence (D : nat) (plugin : MathBooster) (h : Heap) :
  (∀ settings file k,
      root_on_top file →
      resolved D settings plugin file h !! k
      = closest_defining k (layers D settings plugin file h))
  ∧ (∀ pf pa pb X v1 v2 lr lf,
      let root := TFolder VAULT_ROOT true None in
      let folder := TFolder pf false (Some root) in
      let inside := TFile pa (Some folder) in
      let outside := TFile pb (Some root) in
      settings plugin !! VAULT_ROOT = Some lr → read h lr !! X = Some v1 →
      settings plugin !! pf = Some lf → read h lf !! X = Some v2 →
      stored plugin h inside ≫= (.!! X) = None →
      stored plugin h outside ≫= (.!! X) = None →
      resolved D None plugin inside h !! X = Some v2
      ∧ resolved D None plugin outside h !! X = Some v1).
Proof.
  split.
  - intros settings file k Hroot. rewrite resolved_eq. by apply merged_lookup.
  - intros pf pa pb X v1 v2 lr lf root folder inside outside
      Hroot Hv1 Hfolder Hv2 Hin Hout.
    rewrite !resolved_eq, !merged_lookup by done.
    unfold layers, stored in *. simpl in *.
    rewrite Hroot, Hfolder. simpl.
    split.
    + destruct (settings plugin !! pa) as [la|]; simpl in *.
      * by rewrite Hin, Hv2.
      * by rewrite Hv2.
    + destruct (settings plugin !! pb) as [lb|]; simpl in *.
      * by rewrite Hout, Hv1.
      * by rewrite Hv1.
Qed.

(** A concrete vault for C1: the root stores the arabic style, the folder
    [notes] the roman one. *)
Lemma resolveSettings_layer_precedence_witness :
  resolved 0 None Examples.layered_plugin Examples.a_md Examples.layered_heap
    !! "numberStyle" = Some (JStr "roman")
  ∧ resolved 0 None Examples.layered_plugin Examples.b_md Examples.layered_heap
    !! "numberStyle" = Some (JStr "arabic").
Proof.
  apply (proj2 (resolveSettings_layer_precedence 0 Examples.layered_plugin
                  Examples.layered_heap)
           "notes" "notes/a.md" "b.md" "numberStyle"
           (JStr "arabic") (JStr "roman") 2 3);
    vm_compute; reflexivity.
Defined.

Lemma assign_from_is_Some (h : Heap) (source : option nat) (acc : JSObject) (k : string) :
  is_Some (acc !! k) → is_Some (assign_from h source acc !! k).
Proof.
  intros [v Hv]. destruct source as [s|]; simpl; [|by eexists].
  rewrite lookup_union_match. destruct (read h s !! k); by eexists.
Qed.

Lemma foldl_assign_from_is_Some (h : Heap) (f : TAbstractFile → option nat)
    (l : list TAbstractFile) (base : JSObject) (k : string) :
  is_Some (base !! k) →
  is_Some (foldl (fun acc a => assign_from h (f a) acc) base l !! k).
Proof.
  revert base. induction l as [|a l IH]; intros base Hb; simpl; [done|].
  apply IH. by apply assign_from_is_Some.
Qed.

Lemma foldl_assign_from_none (h : Heap) (f : TAbstractFile → option nat)
    (l : list TAbstractFile) (base : JSObject) :
  (∀ a, a ∈ l → f a = None) →
  foldl (fun acc a => assign_from h (f a) acc) base l = base.
Proof.
  revert base. induction l as [|a l IH]; intros base Hl; simpl; [done|].
  rewrite (Hl a) by left. simpl. apply IH. intros b Hb. apply Hl. by right.
Qed.

(** C4. Resolution without a block override always returns an object (the
    function is total: there is no error path), and when the global default
    is fully populated so is the returned object; when no location of the
    chain has a stored configuration the returned object holds exactly the
    global default. *)
Theorem resolveSettings_fully_populated (D : nat) (plugin : MathBooster)
    (L : TAbstractFile) (h : Heap) :
  fully_populated (read h D) →
  ∃ r h',
    resolveSettings D None plugin L h = (r, h')
    ∧ fully_populated (read h' r)
    ∧ ((∀ a, a ∈ getAncestors L → settings plugin !! path a = None) →
       read h' r = read h D).
Proof.
  intros Hpop. eexists _, _. split; [apply resolveSettings_eq|].
  rewrite read_app_new. unfold merged; simpl. split.
  - unfold fully_populated in *.
    eapply Forall_impl; [exact Hpop|]. intros k Hk. simpl in Hk.
    apply foldl_assign_from_is_Some.
    by rewrite (right_id_L ∅ (∪)).
  - intros Hnone. rewrite foldl_assign_from_none by done.
    by rewrite (right_id_L ∅ (∪)).
Qed.

Lemma sample_defaults_fully_populated :
  fully_populated (read Examples.layered_heap 0).
Proof.
  unfold fully_populated. apply Forall_forall. intros k Hk.
  repeat (apply elem_of_cons in Hk as [->|Hk]; [vm_compute; eauto|]).
  by apply elem_of_nil in Hk.
Qed.

Lemma resolveSettings_fully_populated_witness :
  ∃ r h',
    resolveSettings 0 None Examples.layered_plugin Examples.a_md Examples.layered_heap
    = (r, h')
    ∧ fully_populated (read h' r)
    ∧ ((∀ a, a ∈ getAncestors Examples.a_md →
             settings Examples.layered_plugin !! path a = None) →
       read h' r = read Examples.layered_heap 0).
Proof.
  apply (resolveSettings_fully_populated 0 Examples.layered_plugin Examples.a_md
           Examples.layered_heap).
  unfold fully_populated. apply Forall_forall. intros k Hk.
  repeat (apply elem_of_cons in Hk as [->|Hk]; [vm_compute; eauto|]).
  by apply elem_of_nil in Hk.
Defined.

(** *** Start-up *)

Lemma loadSettings_root_lookup (D : nat) (loaded : option LoadedData) (plugin : MathBooster) :
  settings (loadSettings D loaded plugin) !! VAULT_ROOT
  = Some (default D (stored_root loaded)).
Proof.
  unfold stored_root, loadSettings, merge_settings.
  destruct loaded as [[[m|] e]|]; simpl.
  - rewrite lookup_union_Some_raw.
    destruct (m !! VAULT_ROOT) as [l|] eqn:Hm; simpl.
    + by left.
    + right. split; [done|]. apply lookup_singleton_eq.
  - rewrite (left_id_L ∅ (∪)). apply lookup_singleton_eq.
  - rewrite (left_id_L ∅ (∪)). apply lookup_singleton_eq.
Qed.

(** C7, as the code has it. After [loadSettings] the root path always has an
    entry. It is the global default object itself when there is no blob or
    the blob stores nothing under the root path, and is then fully populated
    when the default is; otherwise it is the very object the blob stores
    under the root path, so it has every recognized option exactly when that
    stored object has. *)
Theorem loadSettings_root_entry (D : nat) (loaded : option LoadedData)
    (plugin : MathBooster) (h : Heap) :
  fully_populated (read h D) →
  ∃ l,
    settings (loadSettings D loaded plugin) !! VAULT_ROOT = Some l
    ∧ (stored_root loaded = None → l = D ∧ fully_populated (read h l))
    ∧ (∀ l0, stored_root loaded = Some l0 → l = l0).
Proof.
  intros Hpop. eexists. split; [apply loadSettings_root_lookup|].
  split.
  - intros ->. simpl. done.
  - intros l0 ->. done.
Qed.

Lemma loadSettings_root_entry_witness :
  ∃ l,
    settings (loadSettings 0 None Examples.fresh_plugin) !! VAULT_ROOT = Some l
    ∧ (stored_root None = None → l = 0 ∧ fully_populated (read Examples.layered_heap l))
    ∧ (∀ l0, stored_root None = Some l0 → l = l0).
Proof.
  apply (loadSettings_root_entry 0 None Examples.fresh_plugin Examples.layered_heap).
  unfold fully_populated. apply Forall_forall. intros k Hk.
  repeat (apply elem_of_cons in Hk as [->|Hk]; [vm_compute; eauto|]).
  by apply elem_of_nil in Hk.
Defined.

(** C7, as stated, fails: the blob stores under the root path a
    configuration without the [profile] option; the default is fully
    populated, and after [loadSettings] the root entry is the stored object,
    in which [profile] is missing. *)
Lemma loadSettings_root_partial :
  fully_populated (read Examples.partial_root_heap 0)
  ∧ ∃ l,
      settings (loadSettings 0 (Some Examples.partial_root_blob) Examples.fresh_plugin)
        !! VAULT_ROOT = Some l
      ∧ ¬ fully_populated (read Examples.partial_root_heap l).
Proof.
  split.
  - unfold fully_populated. apply Forall_forall. intros k Hk.
    repeat (apply elem_of_cons in Hk as [->|Hk]; [vm_compute; eauto|]).
    by apply elem_of_nil in Hk.
  - exists 2. split; [by vm_compute|].
    unfold fully_populated. rewrite Forall_forall. intros Hall.
    assert (Hp : "profile" ∈ recognized_options).
    { unfold recognized_options. rewrite !elem_of_cons. tauto. }
    destruct (Hall _ Hp) as [v Hv]. vm_compute in Hv. discriminate.
Qed.

End ResolverProps.

(** ** Title formatting *)

Module FormatterProps.
Import JS Numeral Vault Store ProfileData Resolver Formatter Reference.
Import ResolverProps.



(** Writing a property the value it already holds changes nothing. *)
Lemma set_prop_same (h : Heap) (l : nat) (k : string) (v : JSValue) :
  get (read h l) k = v → v ≠ JUndefined → set_prop l k v h = h.
Proof.
  intros Hget Hv. unfold set_prop.
  destruct (h !! l) as [o|] eqn:Hl.
  - apply list_insert_id. rewrite Hl. f_equal.
    unfold read, get in *. rewrite Hl in *. simpl in *.
    symmetry. apply insert_id. destruct (o !! k); simpl in *; congruence.
  - apply list_insert_ge. by apply lookup_ge_None.
Qed.


Lemma read_set_prop_ne (h : Heap) (l l' : nat) (k : string) (v : JSValue) :
  l ≠ l' → read (set_prop l k v h) l' = read h l'.
Proof.
  intros Hl. unfold set_prop, read at 1 3.
  by rewrite list_lookup_insert_ne.
Qed.



Lemma not_nullish_defined (v : JSValue) : nullish v = false → v ≠ JUndefined.
Proof. by intros Hv ->. Qed.


(** The title of an automatically numbered block whose [numberInit] is
    populated: the store is left as it is, and the number is the converted
    sum of the sequence index and [numberInit]. *)
Lemma formatTitleWithoutSubtitle_auto (D : nat) plugin (l : nat) (h : Heap)
    (title idx init : JSValue) (style : string) convert numberString :
  formatMathCalloutType plugin (read h l) = Normal title →
  get (read h l) "number" = JStr "auto" →
  get (read h l) "_index" = idx → idx ≠ JUndefined →
  get (read h l) "numberInit" = init → nullish init = false →
  get (read h l) "numberStyle" = JStr style →
  CONVERTER style = Some convert →
  convert (number_add (ToNumber idx) (ToNumber init)) = Normal numberString →
  formatTitleWithoutSubtitle D plugin l h
  = (Normal (append_number title (JStr numberString) (read h l)), h).
Proof.
  intros Htitle Hnumber Hidx Hdef Hinit Hnn Hstyle Hconv Hnum.
  unfold formatTitleWithoutSubtitle.
  rewrite Htitle, Hnumber. simpl.
  rewrite Hidx. destruct (decide (idx = JUndefined)) as [|_]; [done|].
  rewrite Hinit.
  replace (coalesce init (JNumber (Num 1))) with init
    by (unfold coalesce; by rewrite Hnn).
  rewrite (set_prop_same h l "numberInit" init Hinit (not_nullish_defined _ Hnn)).
  rewrite Hidx, Hinit, Hstyle. simpl. by rewrite Hconv, Hnum.
Qed.

(** C2, as the code has it. The title starts with whatever
    [formatMathCalloutType] returns for the active profile and the kind of
    the block. With an [auto] number, [numberInit] 1 and empty number prefix
    and suffix, style [roman] appends the lowercase numeral (index 0 gives
    " i", index 2 gives " iii"); the uppercase " I" and " III" are those of
    style [Roman]. *)
Theorem formatTitle_roman_numbering (D : nat) plugin (l : nat) (h : Heap)
    (title : JSValue) (style : string) (i : Z) :
  formatMathCalloutType plugin (read h l) = Normal title →
  get (read h l) "number" = JStr "auto" →
  get (read h l) "_index" = JNumber (Num i) →
  get (read h l) "numberInit" = JNumber (Num 1) →
  get (read h l) "numberStyle" = JStr style →
  get (read h l) "numberPrefix" = JStr "" →
  get (read h l) "numberSuffix" = JStr "" →
  let result := (formatTitleWithoutSubtitle D plugin l h).1 in
  (style = "roman" → i = 0%Z → result = Normal (js_add title (JStr " i")))
  ∧ (style = "roman" → i = 2%Z → result = Normal (js_add title (JStr " iii")))
  ∧ (style = "Roman" → i = 0%Z → result = Normal (js_add title (JStr " I")))
  ∧ (style = "Roman" → i = 2%Z → result = Normal (js_add title (JStr " III"))).
Proof.
  intros Htitle Hnumber Hidx Hinit Hstyle Hpre Hsuf result. subst result.
  repeat split; intros -> ->.
  - erewrite formatTitleWithoutSubtitle_auto; eauto; try done.
    simpl. unfold append_number. by rewrite Hpre, Hsuf.
  - erewrite formatTitleWithoutSubtitle_auto; eauto; try done.
    simpl. unfold append_number. by rewrite Hpre, Hsuf.
  - erewrite formatTitleWithoutSubtitle_auto; eauto; try done.
    simpl. unfold append_number. by rewrite Hpre, Hsuf.
  - erewrite formatTitleWithoutSubtitle_auto; eauto; try done.
    simpl. unfold append_number. by rewrite Hpre, Hsuf.
Qed.

(** The block of the scenario under the shipped profiles, sequence index 0. *)
Lemma formatTitle_roman_numbering_witness :
  (formatTitleWithoutSubtitle 0 Examples.fresh_plugin 2 (Examples.roman_heap 0)).1
  = Normal (js_add JUndefined (JStr " i")).
Proof.
  apply (formatTitle_roman_numbering 0 Examples.fresh_plugin 2 (Examples.roman_heap 0)
           JUndefined "roman" 0);
    vm_compute; reflexivity.
Defined.

(** C2, as stated, fails: under the shipped profiles the block of the
    scenario (kind theorem, style roman, [numberInit] 1, auto number) is
    titled "undefined i" at sequence index 0 and "undefined iii" at index
    2, not "Theorem I" and "Theorem III". *)
Lemma formatTitle_roman_scenario :
  (formatTitleWithoutSubtitle 0 Examples.fresh_plugin 2 (Examples.roman_heap 0)).1
  = Normal (JStr "undefined i")
  ∧ (formatTitleWithoutSubtitle 0 Examples.fresh_plugin 2 (Examples.roman_heap 2)).1
    = Normal (JStr "undefined iii")
  ∧ (formatTitleWithoutSubtitle 0 Examples.fresh_plugin 2 (Examples.roman_heap 0)).1
    ≠ Normal (JStr "Theorem I")
  ∧ (formatTitleWithoutSubtitle 0 Examples.fresh_plugin 2 (Examples.roman_heap 2)).1
    ≠ Normal (JStr "Theorem III").
Proof.
  assert (H0 : (formatTitleWithoutSubtitle 0 Examples.fresh_plugin 2
                  (Examples.roman_heap 0)).1 = Normal (JStr "undefined i"))
    by (vm_compute; reflexivity).
  assert (H2 : (formatTitleWithoutSubtitle 0 Examples.fresh_plugin 2
                  (Examples.roman_heap 2)).1 = Normal (JStr "undefined iii"))
    by (vm_compute; reflexivity).
  rewrite H0, H2. repeat split; discriminate.
Qed.

(** *** Effects on the store *)











End FormatterProps.

(** ** Numerals *)

Module NumeralProps.
Import JS Numeral Reference.

(** *** The digit loop has fuel enough *)

Lemma digit26_value_digit26 (d : N) :
  (d < 26)%N → digit26_value (digit26 d) = d.
Proof.
  intros Hd.
  assert (Hall : Forall (fun k => digit26_value (digit26 (N.of_nat k)) = N.of_nat k)
                   (seq 0 26)).
  { apply (bool_decide_unpack _). vm_compute. reflexivity. }
  rewrite Forall_forall in Hall.
  replace d with (N.of_nat (N.to_nat d)) by lia.
  apply Hall. apply elem_of_seq. lia.
Qed.

Lemma value26_foldl (l : list ascii) (a : N) :
  foldl (fun v c => 26 * v + digit26_value c)%N a l
  = (a * 26 ^ N.of_nat (length l) + value26 l)%N.
Proof.
  unfold value26. revert a. induction l as [|c l IH]; intros a; simpl.
  - rewrite N.mul_1_r. lia.
  - rewrite IH, (IH (26 * 0 + digit26_value c)%N).
    rewrite Nat2N.inj_succ, N.pow_succ_r'. lia.
Qed.

Lemma value26_cons (c : ascii) (l : list ascii) :
  value26 (c :: l) = (digit26_value c * 26 ^ N.of_nat (length l) + value26 l)%N.
Proof. unfold value26 at 1. simpl. rewrite value26_foldl. lia. Qed.

Lemma digits26_S (fuel : nat) (n : N) (acc : list ascii) :
  digits26 (S fuel) n acc
  = if (n <? 26)%N then digit26 n :: acc
    else digits26 fuel (n / 26) (digit26 (n mod 26) :: acc).
Proof. reflexivity. Qed.

Lemma digits26_value (fuel : nat) (n : N) (acc : list ascii) :
  (n < 2 ^ N.of_nat fuel)%N →
  value26 (digits26 (S fuel) n acc)
  = (n * 26 ^ N.of_nat (length acc) + value26 acc)%N.
Proof.
  revert n acc. induction fuel as [|fuel IH]; intros n acc Hn.
  - assert (n = 0%N) as -> by (simpl in Hn; lia).
    rewrite digits26_S. change (0 <? 26)%N with true. cbv iota.
    rewrite value26_cons, digit26_value_digit26 by lia. done.
  - rewrite digits26_S. destruct (n <? 26)%N eqn:Hlt.
    + apply N.ltb_lt in Hlt.
      rewrite value26_cons, digit26_value_digit26 by done. done.
    + apply N.ltb_ge in Hlt.
      assert (Hdiv : (n / 26 < 2 ^ N.of_nat fuel)%N).
      { rewrite Nat2N.inj_succ, N.pow_succ_r' in Hn.
        apply N.Div0.div_lt_upper_bound. lia. }
      rewrite IH by done.
      rewrite value26_cons, digit26_value_digit26
        by (apply N.mod_lt; lia).
      cbn [length]. rewrite Nat2N.inj_succ, N.pow_succ_r'.
      pose proof (N.div_mod n 26 ltac:(lia)) as Hdm. nia.
Qed.

Lemma size_nat_bound (n : N) : (n < 2 ^ N.of_nat (N.size_nat n))%N.
Proof.
  destruct n as [|p]; simpl; [lia|].
  induction p as [p IH|p IH|]; simpl Pos.size_nat.
  - rewrite Nat2N.inj_succ, N.pow_succ_r'. lia.
  - rewrite Nat2N.inj_succ, N.pow_succ_r'. lia.
  - simpl. lia.
Qed.

(** [toString26] writes all the digits of a number: read back as a base-26
    numeral, the text is the number. *)
Lemma toString26_value (z : Z) :
  (0 ≤ z)%Z → value26 (chars (toString26 (Num z))) = Z.to_N z.
Proof.
  intros Hz. unfold toString26, chars, unchars.
  rewrite list_ascii_of_string_of_list_ascii.
  replace (z <? 0)%Z with false by (symmetry; apply Z.ltb_ge; lia).
  rewrite digits26_value by apply size_nat_bound.
  simpl. unfold value26. simpl. lia.
Qed.

(** Up to 26 the letter styles are the letter enumeration. *)
Lemma toAlph_first_26 (n : Z) :
  (1 ≤ n ≤ 26)%Z →
  toAlphLower (Num n) = bijective26 (Z.to_N n)
  ∧ toAlphUpper (Num n) = unchars (ascii_of_N (64 + Z.to_N n) :: []).
Proof.
  intros Hn.
  assert (Hall : Forall (fun k =>
                   toAlphLower (Num (Z.of_nat k)) = bijective26 (Z.to_N (Z.of_nat k))
                   ∧ toAlphUpper (Num (Z.of_nat k))
                     = unchars (ascii_of_N (64 + Z.to_N (Z.of_nat k)) :: []))
                 (seq 1 26)).
  { apply (bool_decide_unpack _). vm_compute. reflexivity. }
  rewrite Forall_forall in Hall.
  replace n with (Z.of_nat (Z.to_nat n)) by lia.
  apply Hall. apply elem_of_seq. lia.
Qed.

(** C3 at 27, 52 and 53. The letter styles give "ba", "bz" and "ca" (and
    "BA", "BZ", "CA"), where the letter enumeration has "aa", "az" and
    "ba". *)
Theorem toAlph_past_26 :
  toAlphLower (Num 27) = "ba" ∧ toAlphUpper (Num 27) = "BA"
  ∧ bijective26 27 = "aa"
  ∧ toAlphLower (Num 52) = "bz" ∧ bijective26 52 = "az"
  ∧ toAlphLower (Num 53) = "ca" ∧ bijective26 53 = "ba".
Proof. vm_compute. repeat split; reflexivity. Qed.

End NumeralProps.

(** ** Profile registry *)

Module RegistryProps.
Import JS Store ProfileData Registry Reference.

(** *** Naming a copy *)

Lemma makeIdOfCopy_free (oldID : string) (profiles : gmap string Profile) :
  "Copy of " +:+ oldID ∉ dom profiles →
  makeIdOfCopy oldID profiles = "Copy of " +:+ oldID.
Proof. intros Hfree. unfold makeIdOfCopy. by rewrite decide_False. Qed.

Lemma makeIdOfCopy_English :
  makeIdOfCopy "English" DEFAULT_PROFILES = "Copy of English"
  ∧ makeIdOfCopy "English" Examples.copies_of_English = "Copy of English (3)".
Proof. vm_compute. split; reflexivity. Qed.

(** C6 at a profile named "Notes (1)" with two copies, "Copy of Notes (1)"
    and "Copy of Notes (1) (2)": the largest suffix among the copies is 2,
    yet the id of the next copy is "Copy of Notes (1) (2)" once more, since
    every id contributes the first parenthesised number after its first
    [oldID.length + 1] characters, here the 1 of the name. *)
Theorem makeIdOfCopy_repeats_suffix :
  suffix_number "Notes (1)" "Copy of Notes (1) (2)" = Num 1
  ∧ makeIdOfCopy "Notes (1)" Examples.notes_copies = "Copy of Notes (1) (2)".
Proof. vm_compute. split; reflexivity. Qed.

(** C9 at the same table: the id returned for the copy is a key of the
    table already, the copy replaces that profile, and the table keeps its
    three entries. The table is the one two presses of the copy button
    build from the single profile "Notes (1)"; the third press changes
    nothing but that entry. *)
Theorem makeIdOfCopy_not_fresh :
  makeIdOfCopy "Notes (1)" Examples.notes_copies ∈ dom Examples.notes_copies
  ∧ (∃ t, copyProfile "Notes (1)" Examples.notes_copies = Normal t
          ∧ size t = size Examples.notes_copies)
  ∧ (∃ st2 st3,
       run [ClickCopy "Notes (1)"; ClickCopy "Notes (1)"]
         (Examples.manage_state Examples.notes_table) = Some st2
       ∧ table st2 = Examples.notes_copies
       ∧ step (ClickCopy "Notes (1)") st2 = Some st3
       ∧ size (table st3) = 3).
Proof.
  split; [|split].
  - apply (bool_decide_unpack _). vm_compute. reflexivity.
  - eexists. split; [reflexivity|]. vm_compute. reflexivity.
  - eexists _, _. split; [vm_compute; reflexivity|].
    split; [vm_compute; reflexivity|].
    split; vm_compute; reflexivity.
Qed.

(** *** Deleting a profile that is in use *)

(** C5 on the cancel button. The root location uses the profile English;
    deleting English opens the dialog that asks for a replacement, and
    dismissing that dialog removes the profile while the root location
    still names it. *)
Theorem cancel_update_leaves_dangling :
  ∃ st,
    run [ClickDelete "English"; ConfirmDelete; CancelUpdate]
      (Examples.manage_state DEFAULT_PROFILES) = Some st
    ∧ ui st = ManageProfileModal
    ∧ dangling (plugin st) (heap st) "English".
Proof.
  eexists. split; [vm_compute; reflexivity|].
  split; [reflexivity|].
  split.
  - exists VAULT_ROOT, 0. split; vm_compute; reflexivity.
  - vm_compute. reflexivity.
Qed.

(** *** Keys and ids *)

Lemma getAffectedFiles_stored plugin (h : Heap) (i path : string) :
  path ∈ getAffectedFiles plugin h i → is_Some (settings plugin !! path).
Proof.
  unfold getAffectedFiles. rewrite list_elem_of_omap.
  intros ([path' l] & Hin & Hsome).
  apply elem_of_map_to_list in Hin.
  destruct (loose_eq_string _ _); [|done].
  injection Hsome as <-. by eexists.
Qed.

Lemma updateProfile_normal plugin (paths : list string) newID (h : Heap) :
  (∀ path, path ∈ paths → is_Some (settings plugin !! path)) →
  (updateProfile plugin paths newID h).1 = Normal tt.
Proof.
  revert h. induction paths as [|path rest IH]; intros h Hall; simpl; [done|].
  destruct (Hall path) as [l Hl]; [by left|]. rewrite Hl.
  apply IH. intros q Hq. apply Hall. by right.
Qed.







Lemma key_id_consistent_edit (key : string) (t : gmap string Profile) :
  key_id_consistent t → edit_consistent key t.
Proof. intros Ht k p Hk. left. by apply Ht. Qed.

Lemma edit_consistent_absent (key : string) (t : gmap string Profile) :
  edit_consistent key t → t !! key = None → key_id_consistent t.
Proof.
  intros Ht Hnone k p Hk. destruct (Ht k p Hk) as [|[-> _]]; [done|congruence].
Qed.

Lemma key_id_consistent_insert (t : gmap string Profile) (k : string) (p : Profile) :
  key_id_consistent t → id p = Some k → key_id_consistent (<[k := p]> t).
Proof.
  intros Ht Hp k' p'. rewrite lookup_insert. case_decide as Hk.
  - intros [= <-]. by subst.
  - apply Ht.
Qed.

Lemma key_id_consistent_delete (t : gmap string Profile) (k : string) :
  key_id_consistent t → key_id_consistent (delete k t).
Proof.
  intros Ht k' p'. rewrite lookup_delete. case_decide; [done|apply Ht].
Qed.

Lemma table_assign_profile (k : string) (p : Profile) (st : State) :
  table (assign_profile k p st)
  = if sets_prototype k (table st) then table st else <[k := p]> (table st).
Proof. unfold assign_profile. by destruct (sets_prototype k (table st)). Qed.

Lemma ui_assign_profile (k : string) (p : Profile) (st : State) :
  ui (assign_profile k p st) = ui st.
Proof. unfold assign_profile. by destruct (sets_prototype k (table st)). Qed.



(** A write to an ordinary name leaves the prototype as it is. *)
Lemma proto_assign_profile (k : string) (p : Profile) (st : State) :
  proto (assign_profile k p st)
  = if sets_prototype k (table st) then Some p else proto st.
Proof. unfold assign_profile. by destruct (sets_prototype k (table st)). Qed.

(** Moving the entry under edit to the key of its id makes the table
    consistent. *)
Lemma rekey_consistent (key : string) (t : gmap string Profile) (p : Profile) :
  edit_consistent key t → t !! key = Some p →
  key_id_consistent
    (delete key (if sets_prototype (key_of (id p)) t then t
                 else <[key_of (id p) := p]> t)).
Proof.
  intros Ht Hp k q. rewrite lookup_delete. case_decide as Hk; [done|].
  destruct (sets_prototype (key_of (id p)) t).
  { intros Hq. destruct (Ht k q Hq) as [|[-> _]]; [done|congruence]. }
  rewrite lookup_insert. case_decide as Hk'.
  - intros [= <-]. subst k.
    destruct (Ht key p Hp) as [Hid|[_ Hnone]].
    + rewrite Hid in Hk. simpl in Hk. congruence.
    + destruct (id p) as [s|] eqn:Hid; [done|].
      exfalso. apply Hk. by rewrite Hnone.
  - intros Hq. destruct (Ht k q Hq) as [|[-> _]]; [done|congruence].
Qed.

Lemma id_differs_false (i : option string) (k : string) :
  id_differs i k = false ↔ i = Some k.
Proof.
  destruct i as [s|]; simpl; [|by split].
  rewrite negb_false_iff, String.eqb_eq. split; [by intros ->|by intros [= ->]].
Qed.

Lemma rekey_step_pending (key oldID : string) (ks : list string) (st : State) :
  rekey_pending key (oldID :: ks) (table st) →
  ∃ st', rekey_step (Normal tt, st) oldID = (Normal tt, st')
         ∧ ui st' = ui st
         ∧ rekey_pending key ks (table st').
Proof.
  intros Hpend. unfold rekey_step.
  destruct (table st !! oldID) as [p|] eqn:Hp.
  - destruct (id_differs (id p) oldID) eqn:Hd.
    + destruct Hpend as [Hc|[He Hin]].
      { apply Hc in Hp. apply id_differs_false in Hp. congruence. }
      destruct (He oldID p Hp) as [Hid|[-> Hnone]].
      { apply id_differs_false in Hid. congruence. }
      set (st1 := with_table (assign_profile (key_of (id p)) p st)
                    (delete key (table (assign_profile (key_of (id p)) p st)))).
      pose proof (updateProfile_normal (plugin st1)
                    (getAffectedFiles (plugin st1) (heap st1) key) (id p) (heap st1)
                    (getAffectedFiles_stored _ _ _)) as Hnormal.
      destruct (updateProfile _ _ _ _) as [c h'] eqn:Hu. simpl in Hnormal. subst c.
      eexists. split; [reflexivity|]. split; [apply ui_assign_profile|].
      left. change (table (with_heap st1 h')) with (table st1).
      unfold st1. change (table (with_table ?s ?t)) with t.
      rewrite table_assign_profile. by apply rekey_consistent.
    + eexists. split; [reflexivity|]. split; [done|].
      destruct Hpend as [Hc|[He Hin]]; [by left|].
      apply id_differs_false in Hd.
      destruct (decide (oldID = key)) as [->|Hne].
      * left. intros k q Hq. destruct (He k q Hq) as [|[-> _]]; [done|congruence].
      * right. split; [done|]. intros Hsome.
        apply Hin in Hsome. apply elem_of_cons in Hsome as [->|]; done.
  - eexists. split; [reflexivity|]. split; [done|].
    destruct Hpend as [Hc|[He Hin]]; [by left|].
    right. split; [done|]. intros Hsome.
    pose proof (Hin Hsome) as Hk. apply elem_of_cons in Hk as [->|]; [|done].
    rewrite Hp in Hsome. by destruct Hsome.
Qed.

Lemma rekey_loop_consistent (key : string) (ks : list string) (st : State) :
  rekey_pending key ks (table st) →
  ∃ st', rekey_loop ks st = (Normal tt, st')
         ∧ ui st' = ui st
         ∧ key_id_consistent (table st').
Proof.
  unfold rekey_loop. revert st.
  induction ks as [|oldID ks IH]; intros st Hpend; cbn [foldl].
  - exists st. split; [done|]. split; [done|].
    destruct Hpend as [|[He Hin]]; [done|].
    apply (edit_consistent_absent key); [done|].
    destruct (table st !! key) eqn:Hk; [|done].
    exfalso. eapply not_elem_of_nil. apply Hin. by eexists.
  - destruct (rekey_step_pending key oldID ks st Hpend) as (st1 & -> & Hui & Hp1).
    destruct (IH st1 Hp1) as (st' & -> & Hui' & Hc).
    exists st'. split; [done|]. split; [congruence|done].
Qed.

Lemma keys_elem_of {A : Type} (t : gmap string A) (k : string) :
  is_Some (t !! k) → k ∈ keys t.
Proof.
  intros [v Hv]. unfold keys. apply list_elem_of_fmap.
  exists (k, v). split; [done|]. by apply elem_of_map_to_list.
Qed.

Lemma EditProfileModal_onClose_consistent (key : string) (st : State) :
  edit_consistent key (table st) →
  ui (EditProfileModal_onClose st) = ManageProfileModal
  ∧ key_id_consistent (table (EditProfileModal_onClose st)).
Proof.
  intros He. unfold EditProfileModal_onClose.
  destruct (rekey_loop_consistent key (keys (table st)) st) as (st' & -> & _ & Hc).
  { right. split; [done|]. apply keys_elem_of. }
  done.
Qed.

Lemma registry_inv_weaken (m : Modal) (t : gmap string Profile) :
  key_id_consistent t → registry_inv m t.
Proof. intros Ht. destruct m; simpl; try done. by apply key_id_consistent_edit. Qed.

Lemma copyProfile_consistent (i : string) (t t' : gmap string Profile) :
  key_id_consistent t → copyProfile i t = Normal t' → key_id_consistent t'.
Proof.
  intros Ht. unfold copyProfile. destruct (t !! i) as [p|]; [|done].
  intros [= <-]. by apply key_id_consistent_insert.
Qed.

Lemma addProfile_edit_consistent (i : option string) (st : State) :
  key_id_consistent (table st) →
  edit_consistent (key_of i) (table (addProfile i st)).
Proof.
  intros Ht. unfold addProfile. rewrite table_assign_profile.
  destruct (sets_prototype _ _); [by apply key_id_consistent_edit|].
  intros k p. rewrite lookup_insert. case_decide as Hk.
  - intros [= <-]. simpl. right. split; [done|]. by intros ->.
  - intros Hp. left. by apply Ht.
Qed.

Lemma addProfile_named_consistent (name : string) (st : State) :
  key_id_consistent (table st) →
  key_id_consistent (table (addProfile (Some name) st)).
Proof.
  intros Ht. unfold addProfile. rewrite table_assign_profile.
  destruct (sets_prototype _ _); [done|]. by apply key_id_consistent_insert.
Qed.

Lemma alter_edit_consistent (f : Profile → Profile) (key : string)
    (t : gmap string Profile) :
  (∀ p, id (f p) = id p ∨ is_Some (id (f p))) →
  edit_consistent key t → edit_consistent key (alter f key t).
Proof.
  intros Hf Ht k p. rewrite lookup_alter. case_decide as Hk.
  - subst k. destruct (t !! key) as [q|] eqn:Hq; [|done].
    intros [= <-]. right. split; [done|].
    destruct (Hf q) as [Hid|[s Hs]]; [|congruence].
    rewrite Hid. intros Hnone.
    destruct (Ht key q Hq) as [|[_ Hkey]]; [congruence|by apply Hkey].
  - apply Ht.
Qed.

Lemma editTags_id (value : string) (p : Profile) : id (editTags value p) = id p.
Proof. unfold editTags. by destruct (forallb _ _). Qed.

Lemma step_registry_inv (e : Event) (st st' : State) :
  registry_inv (ui st) (table st) → step e st = Some st' →
  registry_inv (ui st') (table st').
Proof.
  intros Hinv. unfold step.
  destruct (ui st) as [|i|key|i|deleted affected sel] eqn:Hui, e; simpl in *;
    try discriminate.
  - intros [= <-]. done.
  - case_decide; [|done]. intros [= <-]. simpl. by apply key_id_consistent_edit.
  - case_decide; [|done].
    destruct (copyProfile id0 (table st)) as [t|err] eqn:Hcopy.
    + intros [= <-]. simpl. rewrite Hui. simpl.
      by apply (copyProfile_consistent id0 (table st)).
    + intros [= <-]. by rewrite Hui.
  - case_decide; [|done]. intros [= <-]. done.
  - intros [= <-]. done.
  - intros [= <-]. simpl. by apply addProfile_edit_consistent.
  - intros [= <-]. done.
  - intros [= <-]. simpl. rewrite Hui. simpl.
    apply alter_edit_consistent; [|done]. intros p. right. by eexists.
  - intros [= <-]. simpl. rewrite Hui. simpl.
    apply alter_edit_consistent; [|done]. intros p. left. apply editTags_id.
  - case_decide; [|done]. intros [= <-]. simpl. rewrite Hui. simpl.
    apply alter_edit_consistent; [|done]. intros p. by left.
  - intros [= <-].
    destruct (EditProfileModal_onClose_consistent key st Hinv) as [-> Hc]. done.
  - destruct (getAffectedFiles _ _ _); intros [= <-]; simpl; [|done].
    by apply key_id_consistent_delete.
  - intros [= <-]. done.
  - case_decide; [|done]. intros [= <-]. done.
  - destruct (updateProfile _ _ _ _) as [[[]|err] h']; intros [= <-]; simpl.
    + by apply key_id_consistent_delete.
    + by rewrite Hui.
  - intros [= <-]. simpl. by apply key_id_consistent_delete.
Qed.

Lemma run_registry_inv (es : list Event) (st st' : State) :
  registry_inv (ui st) (table st) → run es st = Some st' →
  registry_inv (ui st') (table st').
Proof.
  revert st. induction es as [|e es IH]; intros st Hinv; simpl.
  - by intros [= <-].
  - destruct (step e st) as [st1|] eqn:Hstep; [|done].
    intros Hrun. apply (IH st1); [|done]. by apply (step_registry_inv e st).
Qed.

(** *** The prototype of the table *)

Lemma assign_profile_proto_kept (k : string) (p : Profile) (st : State) :
  is_Some (proto st) → is_Some (proto (assign_profile k p st)).
Proof. rewrite proto_assign_profile. by destruct (sets_prototype _ _). Qed.

Lemma rekey_step_proto_kept (c : Completion unit) (st : State) (oldID : string) :
  is_Some (proto st) → is_Some (proto (rekey_step (c, st) oldID).2).
Proof.
  intros Hq. unfold rekey_step. destruct c as [[]|e]; [|done].
  destruct (table st !! oldID) as [p|]; [|done].
  destruct (id_differs (id p) oldID); [|done].
  destruct (updateProfile _ _ _ _) as [c h]. cbn.
  by apply assign_profile_proto_kept.
Qed.

Lemma rekey_loop_proto_kept (ks : list string) (cst : Completion unit * State) :
  is_Some (proto cst.2) → is_Some (proto (foldl rekey_step cst ks).2).
Proof.
  revert cst. induction ks as [|k ks IH]; intros [c st] Hq; [done|].
  cbn [foldl]. apply IH. destruct (rekey_step (c, st) k) as [c' st'] eqn:Hstep.
  pose proof (rekey_step_proto_kept c st k Hq) as H. by rewrite Hstep in H.
Qed.

(** A profile that is the prototype of the table stays one, or gives way
    to another: no action restores [Object.prototype]. *)
Lemma step_proto_kept (e : Event) (st st' : State) :
  step e st = Some st' → is_Some (proto st) → is_Some (proto st').
Proof.
  intros Hstep Hq. revert Hstep. unfold step.
  destruct (ui st) as [|i|key|i|deleted affected sel], e; try discriminate;
    repeat case_decide; try discriminate.
  all: try (intros [= <-]; exact Hq).
  - destruct (copyProfile _ _); intros [= <-]; exact Hq.
  - intros [= <-]. cbn. by apply assign_profile_proto_kept.
  - intros [= <-]. unfold EditProfileModal_onClose, rekey_loop.
    pose proof (rekey_loop_proto_kept (keys (table st)) (Normal tt, st) Hq) as H.
    by destruct (foldl rekey_step (Normal tt, st) (keys (table st))) as [[u|err] st1].
  - destruct (getAffectedFiles _ _ _); intros [= <-]; exact Hq.
  - destruct (updateProfile _ _ _ _) as [[[]|err] h']; intros [= <-]; exact Hq.
Qed.

(** A sequence of actions that ends with the prototype untouched left it
    untouched all along. *)
Lemma run_proto_None (es1 es2 : list Event) (st st1 st' : State) :
  run es1 st = Some st1 → run es2 st1 = Some st' → proto st' = None →
  proto st1 = None.
Proof.
  intros _ Hrun Hnone. revert st1 Hrun.
  induction es2 as [|e es IH]; intros st1; simpl.
  - by intros [= <-].
  - destruct (step e st1) as [st2|] eqn:Hstep; [|done].
    intros Hrun. specialize (IH st2 Hrun).
    destruct (proto st1) as [q|] eqn:Hq; [|done].
    destruct (step_proto_kept e st1 st2 Hstep) as [q' Hq']; [by rewrite Hq|].
    congruence.
Qed.

(** X30: keys and ids through the dialogs. From a table in which every
    entry sits under its own id, after any sequence of actions in the
    registry dialogs that leaves the prototype of the table alone, every
    entry sits under its own id whenever the edit dialog is not open, so
    after a copy, after the close of the edit dialog commits a rename, and
    after a deletion; while the edit dialog is open only the entry under
    edit can differ. Adding a profile under a typed name then stores it
    under that name at once, and the edit dialog opens on it. *)
Theorem registry_key_id_consistent (es : list Event) (st st' : State) :
  ui st = ManageProfileModal →
  key_id_consistent (table st) →
  run es st = Some st' →
  proto st' = None →
  match ui st' with
  | EditProfileModal key =>
      ∀ k p, table st' !! k = Some p → k ≠ key → id p = Some k
  | _ => key_id_consistent (table st')
  end
  ∧ (∀ name st'',
       ui st' = AddProfileModal (Some name) →
       step ConfirmAdd st' = Some st'' →
       proto st'' = None →
       ui st'' = EditProfileModal name
       ∧ key_id_consistent (table st'')
       ∧ ∃ p, table st'' !! name = Some p ∧ id p = Some name).
Proof.
  intros Hui Hc Hrun Hproto.
  assert (Hinv : registry_inv (ui st') (table st')).
  { apply (run_registry_inv es st); [|done]. rewrite Hui. done. }
  split.
  - destruct (ui st'); simpl in Hinv; try done.
    intros k p Hp Hk. destruct (Hinv k p Hp) as [|[-> _]]; done.
  - intros name st'' Hadd. unfold step. rewrite Hadd. intros [= <-] Hproto'.
    rewrite Hadd in Hinv. simpl in Hinv.
    split; [done|]. split.
    + change (table (with_ui ?s ?m)) with (table s).
      by apply addProfile_named_consistent.
    + revert Hproto'. change (table (with_ui ?s ?m)) with (table s).
      change (proto (with_ui ?s ?m)) with (proto s).
      unfold addProfile. rewrite table_assign_profile, proto_assign_profile.
      destruct (sets_prototype _ _); [done|]. intros _.
      eexists. split; [apply lookup_insert_eq|done].
Qed.

Lemma DEFAULT_PROFILES_consistent : key_id_consistent DEFAULT_PROFILES.
Proof.
  intros k p. unfold DEFAULT_PROFILES.
  rewrite lookup_insert. case_decide as H1; [by intros [= <-]; subst|].
  rewrite lookup_insert. case_decide as H2; [by intros [= <-]; subst|].
  by rewrite lookup_empty.
Qed.

(** Renaming the profile English to EN among the shipped profiles. *)
Lemma registry_key_id_consistent_witness :
  ∃ st',
    run [ClickEdit "English"; TypeName "EN"; CloseEdit]
      (Examples.manage_state DEFAULT_PROFILES) = Some st'
    ∧ key_id_consistent (table st').
Proof.
  eexists. split; [vm_compute; reflexivity|].
  exact (proj1 (registry_key_id_consistent
                  [ClickEdit "English"; TypeName "EN"; CloseEdit]
                  (Examples.manage_state DEFAULT_PROFILES) _
                  eq_refl DEFAULT_PROFILES_consistent eq_refl eq_refl)).
Defined.

(** C10 at the add dialog, its add button pressed before any name is
    typed: the variable the name field writes to is still [undefined], and
    the add stores a profile whose id is [undefined] under the key
    "undefined", so the table has an entry that does not sit under its own
    id. *)
Lemma add_without_name_breaks_key_id :
  ∃ st p,
    run [ClickAdd; ConfirmAdd] (Examples.manage_state DEFAULT_PROFILES) = Some st
    ∧ table st !! "undefined" = Some p
    ∧ id p = None
    ∧ ¬ key_id_consistent (table st).
Proof.
  eexists _, _. split; [vm_compute; reflexivity|].
  split; [vm_compute; reflexivity|].
  split; [reflexivity|].
  intros Hc. specialize (Hc "undefined" _ eq_refl). discriminate.
Qed.

End RegistryProps.

(** ** Text, array and range utilities *)

Module UtilsProps.
Import JS Utils UtilsReference.

(** *** Ranges *)

(** X1: two proper ranges overlap exactly when they share a position, and
    the test does not depend on the order of its arguments. *)
Theorem hasOverlap_common_position (range1 range2 : Range) :
  proper range1 → proper range2 →
  (hasOverlap range1 range2 = true
   ↔ ∃ x, (from range1 ≤ x ≤ to range1)%Z ∧ (from range2 ≤ x ≤ to range2)%Z)
  ∧ hasOverlap range1 range2 = hasOverlap range2 range1.
Proof.
  unfold proper, hasOverlap. intros H1 H2. split.
  - rewrite andb_true_iff, !Z.leb_le. split.
    + intros [Ha Hb]. exists (Z.max (from range1) (from range2)). lia.
    + intros (x & Hx1 & Hx2). lia.
  - apply andb_comm.
Qed.

Lemma hasOverlap_common_position_witness :
  (hasOverlap {| from := 2; to := 5 |} {| from := 5; to := 9 |} = true
   ↔ ∃ x, (2 ≤ x ≤ 5)%Z ∧ (5 ≤ x ≤ 9)%Z)
  ∧ hasOverlap {| from := 2; to := 5 |} {| from := 5; to := 9 |}
    = hasOverlap {| from := 5; to := 9 |} {| from := 2; to := 5 |}.
Proof.
  apply (hasOverlap_common_position {| from := 2; to := 5 |} {| from := 5; to := 9 |});
    unfold proper; simpl; lia.
Defined.

(** *** Arrays *)

Section Arrays.

Context {A : Type} `{EqDecision A}.








End Arrays.



(** *** Lines *)

Lemma chars_unchars (l : list ascii) : chars (unchars l) = l.
Proof. apply list_ascii_of_string_of_list_ascii. Qed.

Lemma unchars_chars (s : string) : unchars (chars s) = s.
Proof. apply string_of_list_ascii_of_string. Qed.

Lemma chars_append (a b : string) : chars (a +:+ b) = chars a ++ chars b.
Proof. induction a as [|c a IH]; simpl; [done|]. unfold chars in *. by rewrite IH. Qed.

Lemma split_chars_cons (sep : ascii) (l : list ascii) :
  ∃ piece pieces, split_chars sep l = piece :: pieces.
Proof.
  induction l as [|c r (p & ps & IH)]; simpl; [by eauto|].
  destruct (Ascii.eqb c sep); [by eauto|]. rewrite IH. by eauto.
Qed.

Lemma split_chars_no_sep (sep : ascii) (l : list ascii) :
  Forall (fun piece => sep ∉ piece) (split_chars sep l).
Proof.
  induction l as [|c r IH]; simpl.
  - constructor; [by intros ?%elem_of_nil|constructor].
  - destruct (Ascii.eqb c sep) eqn:Hc.
    + constructor; [by intros ?%elem_of_nil|done].
    + destruct (split_chars_cons sep r) as (p & ps & Hr). rewrite Hr in *.
      apply Forall_cons in IH as [Hp Hps]. constructor; [|done].
      intros Hin. apply elem_of_cons in Hin as [->|]; [|done].
      by rewrite Ascii.eqb_refl in Hc.
Qed.

Lemma join_split_chars (sep : ascii) (l : list ascii) :
  join_chars [sep] (split_chars sep l) = l.
Proof.
  induction l as [|c r IH]; simpl; [done|].
  destruct (Ascii.eqb c sep) eqn:Hc.
  - apply Ascii.eqb_eq in Hc as ->.
    destruct (split_chars_cons sep r) as (p & ps & Hr).
    rewrite Hr in *. simpl. f_equal. exact IH.
  - destruct (split_chars_cons sep r) as (p & ps & Hr).
    rewrite Hr in *. simpl. f_equal. exact IH.
Qed.

Lemma split_chars_app (sep : ascii) (piece rest : list ascii) :
  sep ∉ piece →
  split_chars sep (piece ++ sep :: rest) = piece :: split_chars sep rest.
Proof.
  induction piece as [|c p IH]; simpl; intros Hnin.
  - by rewrite Ascii.eqb_refl.
  - apply not_elem_of_cons in Hnin as [Hne Hp].
    replace (Ascii.eqb c sep) with false
      by (symmetry; apply Ascii.eqb_neq; congruence).
    by rewrite IH.
Qed.

Lemma split_chars_whole (sep : ascii) (piece : list ascii) :
  sep ∉ piece → split_chars sep piece = [piece].
Proof.
  induction piece as [|c p IH]; simpl; intros Hnin; [done|].
  apply not_elem_of_cons in Hnin as [Hne Hp].
  replace (Ascii.eqb c sep) with false
    by (symmetry; apply Ascii.eqb_neq; congruence).
  by rewrite IH.
Qed.

Lemma split_join_chars (sep : ascii) (piece : list ascii) (pieces : list (list ascii)) :
  Forall (fun p => sep ∉ p) (piece :: pieces) →
  split_chars sep (join_chars [sep] (piece :: pieces)) = piece :: pieces.
Proof.
  revert piece. induction pieces as [|q qs IH]; intros piece Hall.
  - simpl. rewrite app_nil_r. apply split_chars_whole. by apply Forall_cons in Hall as [? _].
  - apply Forall_cons in Hall as [Hp Hq].
    change (join_chars [sep] (piece :: q :: qs))
      with (piece ++ sep :: join_chars [sep] (q :: qs)).
    rewrite split_chars_app by done. by rewrite IH.
Qed.

(** X4: [increaseQuoteLevel] keeps the lines of a text, in number and in
    order, and writes the two characters "> " before each of them. *)
Theorem increaseQuoteLevel_lines (content : string) :
  split_chars LF (chars (increaseQuoteLevel content))
  = (fun line => chars "> " ++ line) <$> split_chars LF (chars content).
Proof.
  unfold increaseQuoteLevel. rewrite chars_unchars.
  pose proof (split_chars_no_sep LF (chars content)) as Hno.
  destruct (split_chars_cons LF (chars content)) as (p & ps & Hsplit).
  rewrite Hsplit in *. rewrite fmap_cons.
  apply split_join_chars. rewrite <- fmap_cons.
  apply Forall_fmap. eapply Forall_impl; [exact Hno|].
  intros line Hline. simpl. intros Hin.
  apply elem_of_cons in Hin as [Heq|Hin]; [by vm_compute in Heq|].
  apply elem_of_cons in Hin as [Heq|Hin]; [by vm_compute in Heq|done].
Qed.

(** *** Quote symbols *)

Lemma increaseQuoteLevel_one_line (line : string) :
  LF ∉ chars line →
  chars (increaseQuoteLevel line) = chars "> " ++ chars line.
Proof.
  intros Hno. unfold increaseQuoteLevel.
  rewrite chars_unchars, split_chars_whole by done.
  simpl. by rewrite app_nil_r.
Qed.

Lemma iter_increaseQuoteLevel (n : nat) (line : string) :
  LF ∉ chars line →
  chars (Nat.iter n increaseQuoteLevel line)
  = concat (replicate n (chars "> ")) ++ chars line.
Proof.
  intros Hno. induction n as [|n IH]; [done|].
  change (Nat.iter (S n) increaseQuoteLevel line)
    with (increaseQuoteLevel (Nat.iter n increaseQuoteLevel line)).
  rewrite increaseQuoteLevel_one_line.
  - rewrite IH. done.
  - rewrite IH. intros Hin. apply elem_of_app in Hin as [Hin|Hin]; [|done].
    clear IH. induction n as [|n IH]; simpl in Hin; [by apply elem_of_nil in Hin|].
    apply elem_of_cons in Hin as [Heq|Hin]; [by vm_compute in Heq|].
    apply elem_of_cons in Hin as [Heq|Hin]; [by vm_compute in Heq|].
    by apply IH.
Qed.

Lemma quotes_here_quoted (n : nat) (l : list ascii) :
  quotes_here n (concat (replicate n (chars "> ")) ++ l)
  = Some (match n with O => l | S _ => skip_spaces l end).
Proof.
  induction n as [|n IH]; [done|].
  cbn [replicate concat]. change (chars "> ") with [">"%char; " "%char].
  cbn [app quotes_here]. rewrite Ascii.eqb_refl.
  change (skip_spaces (" "%char :: concat (replicate n [">"%char; " "%char]) ++ l))
    with (skip_spaces (concat (replicate n [">"%char; " "%char]) ++ l)).
  destruct n as [|n]; [done|].
  rewrite <- IH. done.
Qed.

Lemma dot_run_all (l : list ascii) :
  Forall (fun c => is_dot c = true) l → dot_run l = (l, []).
Proof.
  induction l as [|c r IH]; intros Hall; simpl; [done|].
  apply Forall_cons in Hall as [Hc Hr]. by rewrite Hc, IH.
Qed.

Lemma skip_spaces_Forall (P : ascii → Prop) (l : list ascii) :
  Forall P l → Forall P (skip_spaces l).
Proof.
  induction l as [|c r IH]; intros Hall; simpl; [done|].
  destruct (is_space c); [|done]. apply IH. by apply Forall_cons in Hall as [_ ?].
Qed.

Lemma is_dot_no_terminator (l : list ascii) :
  LF ∉ l → CR ∉ l → Forall (fun c => is_dot c = true) l.
Proof.
  intros Hlf Hcr. apply Forall_forall. intros c Hc. unfold is_dot.
  apply negb_true_iff, orb_false_iff. split; apply Ascii.eqb_neq; congruence.
Qed.

Lemma quotes_search_here (q : nat) (l rest : list ascii) :
  quotes_here q l = Some rest → quotes_search q l = Some (dot_run rest).1.
Proof. intros H. destruct l; simpl; by rewrite H. Qed.

(** X5: the text under the quote symbols. For one line of ASCII text quoted
    [n] times by [increaseQuoteLevel], taking [n] quote symbols off gives
    the line back, without the white space it began with when [n] is not
    zero. *)
Theorem quoteSymbolTrimmed_increaseQuoteLevel (line : string) (n : nat) :
  ascii_text (chars line) → LF ∉ chars line → CR ∉ chars line →
  quoteSymbolTrimmed (Nat.iter n increaseQuoteLevel line) n
  = Some (match n with
          | O => line
          | S _ => unchars (skip_spaces (chars line))
          end).
Proof.
  intros _ Hlf Hcr. unfold quoteSymbolTrimmed.
  rewrite iter_increaseQuoteLevel by done.
  rewrite (quotes_search_here _ _ _ (quotes_here_quoted n (chars line))).
  rewrite dot_run_all.
  - destruct n; simpl; [by rewrite unchars_chars|done].
  - destruct n; [|apply skip_spaces_Forall]; by apply is_dot_no_terminator.
Qed.

Lemma quoteSymbolTrimmed_increaseQuoteLevel_witness :
  quoteSymbolTrimmed (Nat.iter 2 increaseQuoteLevel "  Let x be given.") 2
  = Some "Let x be given.".
Proof.
  apply (quoteSymbolTrimmed_increaseQuoteLevel "  Let x be given." 2);
    apply (bool_decide_unpack _); vm_compute; reflexivity.
Defined.

(** *** Lines *)

Lemma splitIntoLines_chars_cons (l : list ascii) :
  ∃ p ps, splitIntoLines_chars l = p :: ps.
Proof.
  induction l as [|c r (p & ps & IH)]; [by eexists _, _|].
  cbn [splitIntoLines_chars]. rewrite IH.
  destruct (Ascii.eqb c LF); [by eexists _, _|].
  destruct (Ascii.eqb c CR); [|by eexists _, _].
  destruct r as [|c' r']; [by eexists _, _|].
  destruct (Ascii.eqb c' LF); by eexists _, _.
Qed.

Lemma splitIntoLines_chars_step (c : ascii) (r : list ascii) :
  splitIntoLines_chars (c :: r)
  = if Ascii.eqb c LF then [] :: splitIntoLines_chars r
    else if Ascii.eqb c CR then
      match r with
      | c' :: r' =>
          if Ascii.eqb c' LF then [] :: splitIntoLines_chars r'
          else match splitIntoLines_chars r with
               | piece :: rest => (c :: piece) :: rest
               | [] => [[c]]
               end
      | [] => [[c]]
      end
    else match splitIntoLines_chars r with
         | piece :: rest => (c :: piece) :: rest
         | [] => [[c]]
         end.
Proof. destruct r; reflexivity. Qed.

Lemma splitIntoLines_chars_spec (n : nat) (l : list ascii) :
  length l ≤ n →
  join_chars [LF] (splitIntoLines_chars l) = drop_cr_before_lf l
  ∧ Forall (fun piece => LF ∉ piece) (splitIntoLines_chars l).
Proof.
  revert l. induction n as [|n IH]; intros l Hlen.
  { destruct l; [|simpl in Hlen; lia]. split; [done|].
    repeat constructor. apply not_elem_of_nil. }
  destruct l as [|c r].
  { split; [done|]. repeat constructor. apply not_elem_of_nil. }
  simpl in Hlen.
  destruct (IH r ltac:(lia)) as [Hj Hf].
  rewrite splitIntoLines_chars_step. cbn [drop_cr_before_lf].
  destruct (splitIntoLines_chars_cons r) as (p & ps & Hr).
  destruct (Ascii.eqb c LF) eqn:Hlf.
  { apply Ascii.eqb_eq in Hlf. subst c. change (Ascii.eqb LF CR) with false. cbv iota.
    split.
    - rewrite <- Hj, Hr. done.
    - constructor; [apply not_elem_of_nil|done]. }
  assert (Hpush : join_chars [LF] ((c :: p) :: ps) = c :: drop_cr_before_lf r
                  ∧ Forall (fun piece => LF ∉ piece) ((c :: p) :: ps)).
  { rewrite Hr in Hj, Hf. split.
    - rewrite <- Hj. done.
    - apply Forall_cons in Hf as [Hp Hps]. constructor; [|done].
      apply not_elem_of_cons. split; [|done].
      intros Heq. subst c. by rewrite Ascii.eqb_refl in Hlf. }
  destruct (Ascii.eqb c CR) eqn:Hcr; [|by rewrite Hr].
  destruct r as [|c' r'].
  { split; [done|]. repeat constructor.
    apply not_elem_of_cons. split; [|apply not_elem_of_nil].
    intros Heq. subst c. by rewrite Ascii.eqb_refl in Hlf. }
  destruct (Ascii.eqb c' LF) eqn:Hlf'; [|by rewrite Hr].
  apply Ascii.eqb_eq in Hlf'. subst c'.
  simpl in Hlen. destruct (IH r' ltac:(lia)) as [Hj' Hf'].
  split.
  - cbn [drop_cr_before_lf]. change (Ascii.eqb LF CR) with false. cbv iota.
    rewrite <- Hj'. destruct (splitIntoLines_chars_cons r') as (p' & ps' & ->). done.
  - constructor; [apply not_elem_of_nil|done].
Qed.

(** X6: the lines of a text. The pieces [splitIntoLines] returns hold no
    line feed, there is at least one of them, and joined by line feeds they
    give the text back with every carriage return that stood before a line
    feed dropped. *)
Theorem splitIntoLines_join (text : string) :
  join_chars [LF] (chars <$> splitIntoLines text) = drop_cr_before_lf (chars text)
  ∧ Forall (fun line => LF ∉ chars line) (splitIntoLines text)
  ∧ splitIntoLines text ≠ [].
Proof.
  unfold splitIntoLines.
  destruct (splitIntoLines_chars_spec (length (chars text)) (chars text)) as [Hj Hf]; [done|].
  assert (Hid : chars <$> (unchars <$> splitIntoLines_chars (chars text))
                = splitIntoLines_chars (chars text)).
  { rewrite <- list_fmap_compose. rewrite <- (list_fmap_id (splitIntoLines_chars _)) at 2.
    apply list_fmap_ext. intros _ piece _. apply chars_unchars. }
  split; [by rewrite Hid|]. split.
  - apply Forall_fmap. eapply Forall_impl; [exact Hf|].
    intros piece Hp. simpl. by rewrite chars_unchars.
  - destruct (splitIntoLines_chars_cons (chars text)) as (p & ps & ->). done.
Qed.

(** *** Callout headers *)

Lemma cut_last_bracket_none (l : list ascii) :
  "]"%char ∉ l → cut_last_bracket l = None.
Proof.
  induction l as [|c r IH]; intros Hno; [done|].
  apply not_elem_of_cons in Hno as [Hc Hr]. simpl. rewrite IH by done.
  destruct (Ascii.eqb c "]") eqn:E; [|done]. apply Ascii.eqb_eq in E. done.
Qed.

Lemma cut_last_bracket_app (before after : list ascii) :
  "]"%char ∉ after →
  cut_last_bracket (before ++ "]"%char :: after) = Some (before, after).
Proof.
  intros Hno. induction before as [|c r IH]; simpl.
  - by rewrite cut_last_bracket_none.
  - by rewrite IH.
Qed.

Lemma callout_search_here (l : list ascii) (g : list ascii * list ascii) :
  callout_here l = Some g → callout_search l = Some g.
Proof. intros H. destruct l; cbn [callout_search]; by rewrite H. Qed.

Lemma callout_header_groups (meta title : string) :
  Forall (fun c => is_dot c = true) (chars meta) →
  Forall (fun c => is_dot c = true) (chars title) →
  "]"%char ∉ chars title →
  matchMathCallout ("> [!math|" +:+ meta +:+ "]" +:+ title) = Some (meta, title).
Proof.
  intros Hm Ht Hno. unfold matchMathCallout.
  change (String.eqb ("> [!math|" +:+ meta +:+ "]" +:+ title) "") with false. cbv iota.
  rewrite (callout_search_here _ (chars meta, chars title)).
  - by rewrite !unchars_chars.
  - rewrite !chars_append. unfold callout_here. simpl.
    rewrite dot_run_all.
    + apply cut_last_bracket_app. done.
    + apply Forall_app. split; [done|]. constructor; [done|done].
Qed.

(** X7: reading a callout header back. For ASCII texts [meta] and [title]
    without line terminators, [title] without a closing bracket, the line
    made of the header opening, [meta], a closing bracket and [title] is
    matched with [meta] and [title] as its groups, also when [meta] holds
    closing brackets of its own. *)
Theorem matchMathCallout_header (meta title : string) :
  ascii_text (chars meta) → ascii_text (chars title) →
  LF ∉ chars meta → CR ∉ chars meta →
  LF ∉ chars title → CR ∉ chars title →
  "]"%char ∉ chars title →
  matchMathCallout ("> [!math|" +:+ meta +:+ "]" +:+ title) = Some (meta, title).
Proof.
  intros _ _ Hml Hmc Htl Htc Hno.
  apply callout_header_groups; [by apply is_dot_no_terminator..|done].
Qed.

Lemma matchMathCallout_header_witness :
  matchMathCallout ("> [!math|" +:+ "{[1]}" +:+ "]" +:+ " Main result")
  = Some ("{[1]}", " Main result").
Proof.
  apply (matchMathCallout_header "{[1]}" " Main result");
    apply (bool_decide_unpack _); vm_compute; reflexivity.
Defined.

Section Reading.

Context {S : Type} (JSON_parse : string -> Completion S).

(** X8: the title is read through the settings. On a header line made of
    the header opening, [meta], a closing bracket and [title] (ASCII, no
    line terminators, no closing bracket in [title]), [readMathCalloutTitle] and
    [readMathCalloutSettings] both raise what [JSON.parse] raises on the
    text between the bar and the last closing bracket; when it parses they
    return the trimmed title and the parsed settings. *)
Theorem readMathCallout_header (meta title : string) :
  ascii_text (chars meta) → ascii_text (chars title) →
  LF ∉ chars meta → CR ∉ chars meta →
  LF ∉ chars title → CR ∉ chars title →
  "]"%char ∉ chars title →
  let line := "> [!math|" +:+ meta +:+ "]" +:+ title in
  readMathCalloutTitle JSON_parse line
  = mapC (fun _ => Some (trim title)) (JSON_parse meta)
  ∧ readMathCalloutSettings JSON_parse line = mapC Some (JSON_parse meta).
Proof.
  intros _ _ Hml Hmc Htl Htc Hno line.
  unfold readMathCalloutTitle, readMathCalloutSettings, readMathCalloutSettingsAndTitle.
  subst line. rewrite callout_header_groups by (by try apply is_dot_no_terminator).
  destruct (JSON_parse meta); done.
Qed.

End Reading.

Lemma readMathCallout_header_witness :
  (readMathCalloutTitle parse "> [!math|{}] Main result " = Normal (Some "Main result")
   ∧ readMathCalloutSettings parse "> [!math|{}] Main result " = Normal (Some 0))
  ∧ (readMathCalloutTitle parse "> [!math|{] Main result" = Throw SyntaxError
     ∧ readMathCalloutSettings parse "> [!math|{] Main result" = Throw SyntaxError).
Proof.
  split.
  - apply (readMathCallout_header parse "{}" " Main result ");
      apply (bool_decide_unpack _); vm_compute; reflexivity.
  - apply (readMathCallout_header parse "{" " Main result");
      apply (bool_decide_unpack _); vm_compute; reflexivity.
Defined.

End UtilsProps.

(** ** The vault tree *)

Module TreeProps.
Import JS Tree.

Lemma Node_nested_ind (P : Node → Prop) :
  (∀ p e, P (File p e)) →
  (∀ p cs, Forall P cs → P (Folder p cs)) →
  ∀ n, P n.
Proof.
  intros Hf Hd. fix IH 1. intros [p e|p cs]; [apply Hf|].
  apply Hd. induction cs as [|c cs IHcs]; constructor; [apply IH|exact IHcs].
Qed.

Lemma iterDescendantFiles_Folder (p : string) (cs : list Node) (x : option string) :
  iterDescendantFiles (Folder p cs) x
  = concat ((fun c => iterDescendantFiles c x) <$> cs).
Proof.
  simpl. induction cs as [|c cs IH]; [done|]. simpl. by rewrite IH.
Qed.

(** X9: the files below a node. With an extension given,
    [iterDescendantFiles] hands the callback the files it hands it without
    one that have this extension, in the same order; and it hands it files
    only, never a folder. *)
Theorem iterDescendantFiles_extension (file : Node) (x : string) :
  iterDescendantFiles file (Some x)
  = List.filter (has_extension x) (iterDescendantFiles file None)
  ∧ Forall (fun n => ∃ p e, n = File p e) (iterDescendantFiles file None).
Proof.
  induction file as [p e|p cs IH] using Node_nested_ind.
  - simpl. split; [by destruct (String.eqb e x)|].
    constructor; [by eexists _, _|constructor].
  - rewrite !iterDescendantFiles_Folder. split.
    + induction IH as [|c cs [Hc _] _ IHcs]; [done|].
      rewrite !fmap_cons. cbn [concat].
      rewrite List.filter_app. by rewrite Hc, IHcs.
    + induction IH as [|c cs [_ Hc] _ IHcs]; [constructor|].
      rewrite fmap_cons. cbn [concat]. apply Forall_app. by split.
Qed.

End TreeProps.

(** ** Ancestry *)

Module AncestryProps.
Import JS Vault Reference Ancestry.

Lemma file_eqb_eq (a b : TAbstractFile) : file_eqb a b = true ↔ a = b.
Proof.
  revert a b. fix IH 1. intros [p q|p r q] [p' q'|p' r' q']; simpl;
    try (split; [done|discriminate]).
  - rewrite andb_true_iff, String.eqb_eq.
    destruct q as [x|], q' as [y|];
      try (split; [intros [? ?]; discriminate|discriminate]).
    + rewrite IH. split; [by intros [-> ->]|by intros [= -> ->]].
    + split; [by intros [-> _]|by intros [= ->]].
  - rewrite !andb_true_iff, String.eqb_eq, Bool.eqb_true_iff.
    destruct q as [x|], q' as [y|];
      try (split; [intros [? ?]; discriminate|discriminate]).
    + rewrite IH. split; [by intros [[-> ->] ->]|by intros [= -> -> ->]].
    + split; [by intros [[-> ->] _]|by intros [= -> ->]].
Qed.

Lemma file_eqb_refl (a : TAbstractFile) : file_eqb a a = true.
Proof. by apply file_eqb_eq. Qed.

Lemma file_eqb_neq (a b : TAbstractFile) : file_eqb a b = false ↔ a ≠ b.
Proof.
  rewrite <- file_eqb_eq. destruct (file_eqb a b); split; congruence.
Qed.

(** The nodes above a location, nearest first. *)
Lemma chain_parent (f : TAbstractFile) :
  chain f = f :: match parent f with Some a => chain a | None => [] end.
Proof. by destruct f. Qed.

Lemma TAbstractFile_parent_ind (P : TAbstractFile → Prop) :
  (∀ f, (∀ a, parent f = Some a → P a) → P f) → ∀ f, P f.
Proof.
  intros H. fix IH 1. intros f. apply H.
  destruct f as [p [x|]|p r [x|]]; simpl; intros a Ha;
    try discriminate; injection Ha as <-; apply IH.
Qed.

Lemma isEqualToOrChildOf_round_folders (file2 a : TAbstractFile) :
  folders_to_root a →
  ∃ b, isEqualToOrChildOf_round file2 a = Returns b
       ∧ (b = true ↔ file2 ∈ chain a).
Proof.
  induction a as [a IH] using TAbstractFile_parent_ind.
  destruct a as [p q|p r q]; intros Hu; [done|]. cbn [folders_to_root] in Hu.
  cbn [isEqualToOrChildOf_round].
  destruct (file_eqb (TFolder p r q) file2) eqn:Heq.
  { apply file_eqb_eq in Heq. exists true. split; [done|].
    split; [|done]. intros _. rewrite chain_parent, <- Heq. by left. }
  apply file_eqb_neq in Heq.
  destruct r.
  - subst q. exists false. split; [done|]. split; [done|].
    simpl. intros Hin. apply list_elem_of_singleton in Hin. by subst.
  - destruct q as [a|]; [|done].
    destruct (IH a eq_refl Hu) as (b & Hb & Hiff).
    exists b. split; [done|]. rewrite Hiff.
    rewrite (chain_parent (TFolder p false (Some a))). simpl.
    rewrite elem_of_cons. split; [by right|]. by intros [->|].
Qed.

Lemma isEqualToOrChildOf_loop_under_root (file2 : TAbstractFile)
    (q : option TAbstractFile) :
  under_root q →
  ∃ b, isEqualToOrChildOf_loop file2 q = Returns b
       ∧ (b = true ↔ file2 ∈ match q with Some a => chain a | None => [] end).
Proof.
  destruct q as [a|]; [|done]. apply isEqualToOrChildOf_round_folders.
Qed.

(** X10: below or equal, in a well-formed vault. For a location that is not
    the root folder itself and whose parent chain is made of folders up to
    the root, [isEqualToOrChildOf] returns, and it returns [true] exactly
    when the second node is a root folder or one of the nodes
    [getAncestors] lists for the first. *)
Theorem isEqualToOrChildOf_getAncestors (file1 file2 : TAbstractFile) :
  is_root_folder file1 = false → under_root (parent file1) →
  ∃ b, isEqualToOrChildOf file1 file2 = Returns b
       ∧ (b = true ↔ is_root_folder file2 = true ∨ file2 ∈ getAncestors file1).
Proof.
  intros Hnr Hu. unfold isEqualToOrChildOf, getAncestors. rewrite Hnr.
  rewrite ResolverProps.getAncestors_loop_chain, chain_parent.
  destruct (file_eqb file1 file2) eqn:Heq.
  { apply file_eqb_eq in Heq. exists true. split; [done|]. split; [|done].
    intros _. right. rewrite elem_of_reverse, <- Heq. by left. }
  apply file_eqb_neq in Heq.
  destruct (is_root_folder file2) eqn:Hr2.
  { exists true. split; [done|]. split; [by left|done]. }
  destruct (isEqualToOrChildOf_loop_under_root file2 (parent file1) Hu)
    as (b & Hb & Hiff).
  exists b. split; [done|]. rewrite Hiff, elem_of_reverse, elem_of_cons.
  split; [by right; right|]. intros [|[->|]]; done.
Qed.

Lemma isEqualToOrChildOf_getAncestors_witness :
  ∃ b, isEqualToOrChildOf Examples.a_md Examples.notes = Returns b
       ∧ (b = true ↔ is_root_folder Examples.notes = true
                     ∨ Examples.notes ∈ getAncestors Examples.a_md).
Proof.
  apply (isEqualToOrChildOf_getAncestors Examples.a_md Examples.notes);
    vm_compute; reflexivity.
Defined.

(** X11: the loop that never ends. Asked whether a node without a parent
    (the vault root is the one the host has) lies below another node that
    is not a root folder, [isEqualToOrChildOf] does not return: its loop
    keeps testing a [null] ancestor. *)
Theorem isEqualToOrChildOf_from_root (file1 file2 : TAbstractFile) :
  parent file1 = None → file1 ≠ file2 → is_root_folder file2 = false →
  isEqualToOrChildOf file1 file2 = Diverges.
Proof.
  intros Hp Hne Hr. unfold isEqualToOrChildOf.
  apply file_eqb_neq in Hne. by rewrite Hne, Hr, Hp.
Qed.

Lemma isEqualToOrChildOf_from_root_witness :
  isEqualToOrChildOf Examples.vault_root Examples.a_md = Diverges.
Proof.
  apply (isEqualToOrChildOf_from_root Examples.vault_root Examples.a_md);
    [reflexivity|discriminate|reflexivity].
Defined.

Lemma parent_linked_snoc (l : list TAbstractFile) (a f : TAbstractFile) :
  parent_linked l → last l = Some a → parent f = Some a →
  parent_linked (l ++ [f]).
Proof.
  intros Hl Ha Hf. induction l as [|x l IH]; [done|].
  destruct l as [|y l].
  - simpl in *. injection Ha as ->. done.
  - destruct Hl as [Hxy Hl]. split; [done|]. by apply IH.
Qed.

Lemma reverse_chain_shape (f : TAbstractFile) :
  parent_linked (reverse (chain f))
  ∧ last (reverse (chain f)) = Some f
  ∧ ∃ top, head (reverse (chain f)) = Some top ∧ parent top = None.
Proof.
  induction f as [f IH] using TAbstractFile_parent_ind.
  rewrite chain_parent, reverse_cons.
  destruct (parent f) as [a|] eqn:Hp.
  - destruct (IH a eq_refl) as (Hl & Hlast & top & Hhead & Htop).
    split; [by eapply parent_linked_snoc|].
    split; [by rewrite last_snoc|].
    exists top. split; [|done].
    destruct (reverse (chain a)); [done|]. done.
  - simpl. split; [done|]. split; [done|]. by exists f.
Qed.

(** X12: the list of ancestors. [getAncestors] ends its list with the node
    it was given, and each node of the list is the parent of the next one.
    For a root folder the list is that folder alone; for every other node
    the list begins at a node without a parent, the top of the tree. *)
Theorem getAncestors_shape (file : TAbstractFile) :
  last (getAncestors file) = Some file
  ∧ parent_linked (getAncestors file)
  ∧ (is_root_folder file = true → getAncestors file = [file])
  ∧ (is_root_folder file = false →
     ∃ top, head (getAncestors file) = Some top ∧ parent top = None).
Proof.
  unfold getAncestors. destruct (is_root_folder file) eqn:Hr.
  - assert (Hone : getAncestors_loop true file = [file]) by by destruct file.
    rewrite Hone. done.
  - rewrite ResolverProps.getAncestors_loop_chain.
    destruct (reverse_chain_shape file) as (Hl & Hlast & Htop). done.
Qed.

End AncestryProps.

(** ** Titles and labels *)

Module TitleProps.
Import JS Numeral Store ProfileData Formatter Labels Reference.



(** X14: a title under a profile that is gone. When the settings of a block
    name a profile the table does not hold, [formatTitle] and
    [formatTitleWithoutSubtitle] raise a [TypeError], whatever the other
    options are, and write nothing. *)
Theorem formatTitle_missing_profile (D : nat) plugin (l : nat) (h : Heap)
    (i : string) (noTitleSuffix : bool) :
  get (read h l) "profile" = JStr i → profiles plugin !! i = None →
  formatTitle D plugin l noTitleSuffix h = (Throw TypeError, h)
  ∧ formatTitleWithoutSubtitle D plugin l h = (Throw TypeError, h).
Proof.
  intros Hp Hnone.
  assert (Hw : formatTitleWithoutSubtitle D plugin l h = (Throw TypeError, h)).
  { unfold formatTitleWithoutSubtitle, formatMathCalloutType.
    rewrite Hp. simpl. by rewrite Hnone. }
  split; [|done]. unfold formatTitle. by rewrite Hw.
Qed.

Lemma formatTitle_missing_profile_witness :
  formatTitle 0 (with_profiles Examples.fresh_plugin ∅) 2 false (Examples.roman_heap 0)
  = (Throw TypeError, Examples.roman_heap 0)
  ∧ formatTitleWithoutSubtitle 0 (with_profiles Examples.fresh_plugin ∅) 2
      (Examples.roman_heap 0)
    = (Throw TypeError, Examples.roman_heap 0).
Proof.
  apply (formatTitle_missing_profile 0 (with_profiles Examples.fresh_plugin ∅) 2
           (Examples.roman_heap 0) "English" false);
    vm_compute; reflexivity.
Defined.

Section WithEnvs.

Variable THEOREM_LIKE_ENVs : gmap string string.





End WithEnvs.


End TitleProps.

(** ** Settings helpers *)

Module HelperProps.
Import JS Vault Store Resolver Helper Reference UtilsReference.

Lemma getCallback_eq (l : nat) (name : string) (value : JSValue) (h : Heap) :
  l < length h →
  getCallback l name value h
  = <[l := <[name := value]> (read h l)]> h ++ [{[name := value]}].
Proof.
  intros Hl. unfold getCallback, alloc, Object_assign.
  rewrite ResolverProps.read_app_new, ResolverProps.read_app_old by done.
  rewrite insert_app_l by done.
  by rewrite insert_union_singleton_l.
Qed.

Lemma read_getCallback (l : nat) (name : string) (value : JSValue) (h : Heap) :
  l < length h →
  read (getCallback l name value h) l = <[name := value]> (read h l).
Proof.
  intros Hl. rewrite getCallback_eq by done. unfold read at 1.
  rewrite lookup_app_l by (by rewrite length_insert).
  by rewrite list_lookup_insert_eq.
Qed.

Lemma foldl_assign_root (D : nat) (h : Heap) (base : JSObject)
    (l : list TAbstractFile) :
  base = read h D →
  foldl (fun acc ancestor =>
           assign_from h (({[VAULT_ROOT := D]} : gmap string nat) !! path ancestor) acc)
        base l = read h D.
Proof.
  intros ->. induction l as [|a l IH]; [done|]. simpl.
  destruct (decide (path a = VAULT_ROOT)) as [->|Hne].
  - rewrite lookup_singleton_eq. simpl. by rewrite (idemp_L (∪)).
  - rewrite lookup_singleton_ne by done. done.
Qed.

(** X16: a root setting written after a fresh start. With no persisted data
    [loadSettings] stores the global default object itself under the root
    path, so the callback of a settings helper working on the root entry
    writes into the global default: the default object holds the new value,
    and every location then resolves to the contents of that object. *)
Theorem getCallback_writes_default (D : nat) (plugin : MathBooster) (h : Heap)
    (name : string) (value : JSValue) (file : TAbstractFile) :
  D < length h →
  settings (loadSettings D None plugin) !! VAULT_ROOT = Some D
  ∧ read (getCallback D name value h) D = <[name := value]> (read h D)
  ∧ resolved D None (loadSettings D None plugin) file (getCallback D name value h)
    = <[name := value]> (read h D).
Proof.
  intros HD. split; [|split].
  - unfold loadSettings, merge_settings. simpl.
    rewrite (left_id_L ∅ (∪)). apply lookup_singleton_eq.
  - by apply read_getCallback.
  - rewrite ResolverProps.resolved_eq. unfold merged. simpl.
    unfold merge_settings. simpl. rewrite (left_id_L ∅ (∪)).
    rewrite foldl_assign_root; [by apply read_getCallback|].
    by rewrite (right_id_L ∅ (∪)).
Qed.

Lemma getCallback_writes_default_witness :
  settings (loadSettings 0 None Examples.fresh_plugin) !! VAULT_ROOT = Some 0
  ∧ read (getCallback 0 "numberStyle" (JStr "roman") Examples.bare_heap) 0
    = <["numberStyle" := JStr "roman"]> (read Examples.bare_heap 0)
  ∧ resolved 0 None (loadSettings 0 None Examples.fresh_plugin) Examples.a_md
      (getCallback 0 "numberStyle" (JStr "roman") Examples.bare_heap)
    = <["numberStyle" := JStr "roman"]> (read Examples.bare_heap 0).
Proof.
  apply (getCallback_writes_default 0 Examples.fresh_plugin Examples.bare_heap
           "numberStyle" (JStr "roman") Examples.a_md).
  simpl. lia.
Defined.

(** *** The label derived from a title *)

Lemma label_char_plain (c : ascii) :
  label_char c = true →
  Ascii.eqb c " " = false ∧ Ascii.eqb c "'" = false ∧ is_upper c = false.
Proof.
  destruct c as [[] [] [] [] [] [] [] []]; vm_compute; intros H;
    first [discriminate H | done].
Qed.

Lemma label_text_fixed (l : list ascii) :
  Forall (fun c => label_char c = true) l →
  replaceAll_char " " "-" l = l
  ∧ remove_possessive l = l
  ∧ lower_char <$> l = l
  ∧ List.filter label_char l = l.
Proof.
  induction 1 as [|c l Hc Hl (IH1 & IH2 & IH3 & IH4)]; [done|].
  destruct (label_char_plain c Hc) as (Hsp & Hap & Hup).
  unfold replaceAll_char in *. cbn [fmap list_fmap remove_possessive List.filter].
  unfold lower_char at 1. rewrite Hsp, Hap, Hup, Hc.
  split; [by f_equal|]. split; [by f_equal|]. split; [by f_equal|]. by f_equal.
Qed.

Lemma filter_label_char (l : list ascii) :
  Forall (fun c => label_char c = true) (List.filter label_char l).
Proof.
  induction l as [|c l IH]; simpl; [constructor|].
  destruct (label_char c) eqn:Hc; [by constructor|done].
Qed.

(** X17: the label a title suggests. For an ASCII title the label derived by
    the title field is made of lower-case letters, the digits 0 and 1 and
    hyphens only (the digits 2 to 9 of a title are dropped with the other
    characters), and deriving a label from it again gives it back. *)
Theorem labelInit_fixed (title : string) :
  ascii_text (chars title) →
  Forall (fun c => label_char c = true) (chars (labelInit title))
  ∧ labelInit (labelInit title) = labelInit title.
Proof.
  intros _.
  assert (Hchars : Forall (fun c => label_char c = true) (chars (labelInit title))).
  { unfold labelInit. rewrite UtilsProps.chars_unchars. apply filter_label_char. }
  split; [done|].
  destruct (label_text_fixed _ Hchars) as (H1 & H2 & H3 & H4).
  unfold labelInit at 1. rewrite H1, H2. unfold toLowerCase.
  rewrite !UtilsProps.chars_unchars, H3, H4.
  apply UtilsProps.unchars_chars.
Qed.

Lemma labelInit_fixed_witness :
  Forall (fun c => label_char c = true) (chars (labelInit "Euler's Theorem 2"))
  ∧ labelInit (labelInit "Euler's Theorem 2") = labelInit "Euler's Theorem 2".
Proof.
  apply (labelInit_fixed "Euler's Theorem 2").
  apply (bool_decide_unpack _). vm_compute. reflexivity.
Defined.

End HelperProps.

(** ** Profile dialogs *)

Module DialogProps.
Import JS Store ProfileData Registry Reference.
Import RegistryProps.





(** *** Renaming *)




(** *** Tags *)

Lemma tag_ok_chars (tag : string) :
  tag_ok tag = true →
  Forall (fun c => is_space c = false ∧ c ≠ ","%char) (chars tag).
Proof.
  unfold tag_ok. intros Hok.
  assert (Hall : forallb (fun c => is_lower c || Ascii.eqb c "-"%char) (chars tag) = true).
  { destruct (chars tag); [done|exact Hok]. }
  clear Hok. apply Forall_forall. intros c Hc.
  rewrite forallb_forall in Hall. specialize (Hall c).
  rewrite <- list_elem_of_In in Hall. specialize (Hall Hc).
  revert Hall. clear.
  destruct c as [[] [] [] [] [] [] [] []]; vm_compute; intros H;
    first [discriminate H | split; [reflexivity|discriminate]].
Qed.

Lemma trim_chars_plain (l : list ascii) :
  Forall (fun c => is_space c = false) l →
  trim_chars l = l ∧ trim_chars (" "%char :: l) = l.
Proof.
  intros Hl. unfold trim_chars.
  set (skip := fix skip (l : list ascii) : list ascii :=
                 match l with
                 | c :: r => if is_space c then skip r else l
                 | [] => []
                 end).
  assert (Hskip : ∀ l, Forall (fun c => is_space c = false) l → skip l = l).
  { intros [|c r] Hall; [done|]. simpl.
    apply Forall_cons in Hall as [Hc _]. by rewrite Hc. }
  assert (Hone : reverse (skip (reverse (skip l))) = l).
  { rewrite (Hskip l Hl), (Hskip (reverse l)) by by apply Forall_reverse.
    apply reverse_involutive. }
  split; [exact Hone|].
  change (skip (" "%char :: l)) with (skip l). exact Hone.
Qed.

Lemma join_comma_blank (piece : list ascii) (pieces : list (list ascii)) :
  Utils.join_chars (chars ", ") (piece :: pieces)
  = Utils.join_chars [","%char] (piece :: ((fun q => " "%char :: q) <$> pieces)).
Proof.
  unfold Utils.join_chars. f_equal. f_equal.
  rewrite <- list_fmap_compose. by apply list_fmap_ext.
Qed.

(** X20: the tag field read back. The edit dialog shows the tags of a
    profile joined by a comma and a blank; for a list of valid tags that is
    not empty, handing this text to the handler of the field stores the
    same tags. For the empty list the text is empty, and the handler
    stores one empty tag. *)
Theorem editTags_shownTags (p : Profile) (ts : list string) :
  Forall (fun tag => tag_ok tag = true) ts →
  editTags (Tags.shownTags ts) p
  = with_tags p (match ts with [] => [""] | _ => ts end).
Proof.
  intros Hok. destruct ts as [|t ts]; [done|].
  unfold editTags, Tags.shownTags.
  rewrite UtilsProps.chars_unchars.
  rewrite fmap_cons, join_comma_blank.
  assert (Hplain : Forall (fun tag => Forall (fun c => is_space c = false ∧ c ≠ ","%char)
                                        (chars tag)) (t :: ts)).
  { eapply Forall_impl; [exact Hok|]. intros tag. apply tag_ok_chars. }
  rewrite UtilsProps.split_join_chars.
  2:{ apply Forall_cons in Hplain as [Ht Hts]. constructor.
      - intros Hin. rewrite Forall_forall in Ht. by destruct (Ht _ Hin).
      - apply Forall_fmap, Forall_fmap. eapply Forall_impl; [exact Hts|].
        intros tag Htag. simpl. intros Hin.
        apply elem_of_cons in Hin as [Heq|Hin]; [discriminate|].
        rewrite Forall_forall in Htag. by destruct (Htag _ Hin). }
  assert (Htrim : (fun piece => trim (unchars piece))
                    <$> (chars t :: ((fun q => " "%char :: q) <$> (chars <$> ts)))
                  = t :: ts).
  { apply Forall_cons in Hplain as [Ht Hts]. rewrite fmap_cons. f_equal.
    - unfold trim. rewrite UtilsProps.chars_unchars.
      rewrite (proj1 (trim_chars_plain (chars t)
                        (Forall_impl _ _ _ Ht (fun c H => proj1 H)))).
      apply UtilsProps.unchars_chars.
    - rewrite <- !list_fmap_compose.
      rewrite <- (list_fmap_id ts) at 2.
      apply Forall_fmap_ext. eapply Forall_impl; [exact Hts|].
      intros tag Htag. simpl. unfold trim.
      change (unchars (" "%char :: chars tag)) with (String " "%char (unchars (chars tag))).
      rewrite UtilsProps.unchars_chars.
      change (chars (String " "%char tag)) with (" "%char :: chars tag).
      rewrite (proj2 (trim_chars_plain (chars tag)
                        (Forall_impl _ _ _ Htag (fun c H => proj1 H)))).
      apply UtilsProps.unchars_chars. }
  rewrite Htrim.
  replace (forallb tag_ok (t :: ts)) with true; [done|].
  symmetry. apply forallb_forall. intros tag Hin.
  rewrite Forall_forall in Hok. apply Hok. by apply list_elem_of_In.
Qed.

Lemma editTags_shownTags_witness :
  editTags (Tags.shownTags ["en"; "my-notes"]) English
  = with_tags English ["en"; "my-notes"].
Proof.
  apply (editTags_shownTags English ["en"; "my-notes"]).
  apply (bool_decide_unpack _). vm_compute. reflexivity.
Defined.

(** *** Well-formed profiles *)

Lemma editTags_ok (value : string) (p : Profile) :
  Tags.profile_ok p → Tags.profile_ok (editTags value p).
Proof.
  intros [Ht Hb]. unfold editTags.
  destruct (forallb tag_ok _) eqn:Hall; [|done].
  split; [|done]. simpl. apply Forall_forall. intros tag Hin.
  rewrite forallb_forall in Hall. apply Hall. by apply list_elem_of_In.
Qed.

Lemma editBody_ok (envID value : string) (p : Profile) :
  Tags.profile_ok p → Tags.profile_ok (editBody envID value p).
Proof.
  intros [Ht Hb]. split; [done|]. simpl.
  eapply Forall_impl; [exact Hb|]. intros e He.
  destruct (decide (e = envID)) as [->|Hne].
  - rewrite lookup_insert_eq. by eexists.
  - by rewrite lookup_insert_ne.
Qed.

Lemma assign_profile_ok (k : string) (p : Profile) (st : State) :
  Tags.profile_ok p → Tags.table_ok (table st) →
  Tags.table_ok (table (assign_profile k p st)).
Proof.
  intros Hp Ht. rewrite table_assign_profile.
  destruct (sets_prototype k (table st)); [done|].
  by apply map_Forall_insert_2.
Qed.

Lemma addProfile_ok (i : option string) (st : State) :
  Tags.table_ok (table st) → Tags.table_ok (table (addProfile i st)).
Proof.
  intros Ht. apply assign_profile_ok; [|done]. split; [constructor|].
  simpl. apply (bool_decide_unpack _). vm_compute. reflexivity.
Qed.

Lemma rekey_step_ok (c : Completion unit) (st : State) (oldID : string) :
  Tags.table_ok (table st) → Tags.table_ok (table (rekey_step (c, st) oldID).2).
Proof.
  intros Hok. unfold rekey_step. destruct c as [[]|e]; [|done].
  destruct (table st !! oldID) as [p|] eqn:Hp; [|done].
  destruct (id_differs (id p) oldID); [|done].
  destruct (updateProfile _ _ _ _) as [c h]. cbn.
  apply map_Forall_delete, assign_profile_ok; [|done].
  by apply (Hok oldID).
Qed.

Lemma rekey_loop_ok (ks : list string) (cst : Completion unit * State) :
  Tags.table_ok (table cst.2) → Tags.table_ok (table (foldl rekey_step cst ks).2).
Proof.
  revert cst. induction ks as [|k ks IH]; intros [c st] Hok; [done|].
  cbn [foldl]. apply IH. destruct (rekey_step (c, st) k) as [c' st'] eqn:Hstep.
  pose proof (rekey_step_ok c st k Hok) as H. by rewrite Hstep in H.
Qed.

Lemma step_table_ok (e : Event) (st st' : State) :
  Tags.table_ok (table st) → step e st = Some st' → Tags.table_ok (table st').
Proof.
  intros Hok. unfold step.
  destruct (ui st) as [|i|key|i|deleted affected sel] eqn:Hui, e; simpl in *;
    try discriminate.
  - intros [= <-]. done.
  - case_decide; [|done]. intros [= <-]. done.
  - case_decide; [|done]. unfold copyProfile.
    destruct (table st !! id0) as [p|] eqn:Hp.
    + intros [= <-]. cbn. apply map_Forall_insert_2; [|done].
      destruct (Hok id0 p Hp) as [? ?]. by split.
    + intros [= <-]. done.
  - case_decide; [|done]. intros [= <-]. done.
  - intros [= <-]. done.
  - intros [= <-]. change (table (with_ui ?s ?m)) with (table s).
    by apply addProfile_ok.
  - intros [= <-]. done.
  - intros [= <-]. cbn. intros k p. rewrite lookup_alter_Some.
    intros [(_ & q & Hq & ->)|[_ Hk]]; [|by apply (Hok k)].
    destruct (Hok _ _ Hq). by split.
  - intros [= <-]. cbn. intros k p. rewrite lookup_alter_Some.
    intros [(_ & q & Hq & ->)|[_ Hk]]; [|by apply (Hok k)].
    apply editTags_ok. by apply (Hok k).
  - case_decide; [|done]. intros [= <-]. cbn. intros k p. rewrite lookup_alter_Some.
    intros [(_ & q & Hq & ->)|[_ Hk]]; [|by apply (Hok k)].
    apply editBody_ok. by apply (Hok k).
  - intros [= <-]. unfold EditProfileModal_onClose, rekey_loop.
    pose proof (rekey_loop_ok (keys (table st)) (Normal tt, st) Hok) as H.
    destruct (foldl rekey_step (Normal tt, st) (keys (table st))) as [[u|err] st1]; done.
  - destruct (getAffectedFiles _ _ _); intros [= <-]; cbn; [|done].
    by apply map_Forall_delete.
  - intros [= <-]. done.
  - case_decide; [|done]. intros [= <-]. done.
  - destruct (updateProfile _ _ _ _) as [[[]|err] h']; intros [= <-]; cbn; [|done].
    by apply map_Forall_delete.
  - intros [= <-]. cbn. by apply map_Forall_delete.
Qed.

Lemma DEFAULT_PROFILES_ok : Tags.table_ok DEFAULT_PROFILES.
Proof.
  unfold DEFAULT_PROFILES.
  apply map_Forall_insert_2; [|apply map_Forall_insert_2; [|apply map_Forall_empty]].
  - split; apply (bool_decide_unpack _); vm_compute; reflexivity.
  - split; apply (bool_decide_unpack _); vm_compute; reflexivity.
Qed.

Lemma run_table_ok_own (es : list Event) (st st' : State) :
  Tags.table_ok (table st) → run es st = Some st' →
  Tags.table_ok (table st').
Proof.
  revert st. induction es as [|e es IH]; intros st Hok; simpl.
  - by intros [= <-].
  - destruct (step e st) as [st1|] eqn:Hstep; [|done].
    apply IH. by eapply step_table_ok.
Qed.

(** X21: profiles stay well formed. Through any sequence of actions in the
    profile dialogs that leaves the prototype of the table alone (no
    profile is added under, or renamed to, [__proto__]), the table keeps
    inheriting from [Object.prototype] at every point of the sequence, and
    every profile of the table keeps tags that are empty or made of
    lower-case letters and hyphens, and a displayed name for every theorem
    kind, when the table started so (as the table of the shipped profiles
    does). *)
Theorem run_table_ok (es : list Event) (st st' : State) :
  Tags.table_ok (table st) → run es st = Some st' → proto st' = None →
  Tags.table_ok (table st')
  ∧ ∀ es1 es2 st1,
      es = es1 ++ es2 → run es1 st = Some st1 → proto st1 = None.
Proof.
  intros Hok Hrun Hnone. split; [by eapply run_table_ok_own|].
  intros es1 es2 st1 -> Hrun1.
  apply (run_proto_None es1 es2 st st1 st'); [done| |done].
  revert st Hrun Hrun1 Hok. induction es1 as [|e es1 IH]; intros st; simpl.
  - by intros Hrun [= <-].
  - destruct (step e st) as [st2|] eqn:Hstep; [|done].
    intros Hrun Hrun1 Hok. apply (IH st2); [done|done|].
    by eapply step_table_ok.
Qed.

Lemma run_table_ok_witness :
  Tags.table_ok
    (table (default (Examples.manage_state DEFAULT_PROFILES)
              (run [ClickAdd; TypeNewName "French"; ConfirmAdd; TypeTags "fr, A"; CloseEdit]
                 (Examples.manage_state DEFAULT_PROFILES))))
  ∧ ∀ es1 es2 st1,
      [ClickAdd; TypeNewName "French"; ConfirmAdd; TypeTags "fr, A"; CloseEdit]
      = es1 ++ es2 →
      run es1 (Examples.manage_state DEFAULT_PROFILES) = Some st1 →
      proto st1 = None.
Proof.
  apply (run_table_ok
           [ClickAdd; TypeNewName "French"; ConfirmAdd; TypeTags "fr, A"; CloseEdit]
           (Examples.manage_state DEFAULT_PROFILES)).
  - apply DEFAULT_PROFILES_ok.
  - vm_compute. reflexivity.
  - vm_compute. reflexivity.
Defined.

End DialogProps.
(** ** Numerals *)

Module NumeralFacts.
Import JS Numeral Store ProfileData Formatter Reference NumeralReference.

(** *** Roman numerals *)

(** X22: Roman numerals read back. For every number from 1 to 3999
    [toRomanUpper] returns a numeral that stands for the number, and
    [toRomanLower] the same numeral in lower case; so different numbers of
    this range get different numerals. *)
Theorem toRoman_value (n m : Z) :
  (1 ≤ n ≤ 3999)%Z → (1 ≤ m ≤ 3999)%Z →
  mapC (fun s => roman_value (chars s)) (toRomanUpper (Num n)) = Normal n
  ∧ toRomanLower (Num n) = mapC toLowerCase (toRomanUpper (Num n))
  ∧ (toRomanUpper (Num n) = toRomanUpper (Num m) → n = m).
Proof.
  assert (Hall : Forall (fun k =>
                   mapC (fun s => roman_value (chars s)) (toRomanUpper (Num (Z.of_nat k)))
                   = Normal (Z.of_nat k)) (seq 1 3999)).
  { apply (bool_decide_unpack _). vm_compute. reflexivity. }
  rewrite Forall_forall in Hall.
  assert (Hval : ∀ z, (1 ≤ z ≤ 3999)%Z →
            mapC (fun s => roman_value (chars s)) (toRomanUpper (Num z)) = Normal z).
  { intros z Hz. replace z with (Z.of_nat (Z.to_nat z)) by lia.
    apply Hall. apply elem_of_seq. lia. }
  intros Hn Hm. split; [by apply Hval|]. split; [done|].
  intros Heq. pose proof (Hval n Hn) as H1. pose proof (Hval m Hm) as H2.
  rewrite Heq in H1. rewrite H1 in H2. by injection H2.
Qed.

Lemma toRoman_value_witness :
  mapC (fun s => roman_value (chars s)) (toRomanUpper (Num 1994)) = Normal 1994%Z
  ∧ toRomanLower (Num 1994) = mapC toLowerCase (toRomanUpper (Num 1994))
  ∧ (toRomanUpper (Num 1994) = toRomanUpper (Num 2024) → 1994%Z = 2024%Z).
Proof. apply (toRoman_value 1994 2024); lia. Defined.

(** X23: Roman numerals off the range. [toRomanUpper] gives the empty text
    for 0 and for [NaN]; for a negative number down to -99 it gives the
    numeral of the number without its sign; from -100 down to -999 it
    raises a [RangeError]. *)
Theorem toRoman_off_range (n : Z) :
  (1 ≤ n ≤ 999)%Z →
  toRomanUpper (Num 0) = Normal ""
  ∧ toRomanUpper NaN = Normal ""
  ∧ (n ≤ 99 → toRomanUpper (Num (- n)) = toRomanUpper (Num n))%Z
  ∧ (100 ≤ n → toRomanUpper (Num (- n)) = Throw RangeError)%Z.
Proof.
  intros Hn. split; [by vm_compute|]. split; [by vm_compute|].
  assert (Hlow : Forall (fun k => toRomanUpper (Num (- Z.of_nat k))
                                  = toRomanUpper (Num (Z.of_nat k))) (seq 1 99)).
  { apply (bool_decide_unpack _). vm_compute. reflexivity. }
  assert (Hhigh : Forall (fun k => toRomanUpper (Num (- Z.of_nat k)) = Throw RangeError)
                    (seq 100 900)).
  { apply (bool_decide_unpack _). vm_compute. reflexivity. }
  rewrite Forall_forall in Hlow, Hhigh.
  split; intros Hr; replace n with (Z.of_nat (Z.to_nat n)) by lia.
  - apply Hlow. apply elem_of_seq. lia.
  - apply Hhigh. apply elem_of_seq. lia.
Qed.

Lemma toRoman_off_range_witness :
  toRomanUpper (Num 0) = Normal ""
  ∧ toRomanUpper NaN = Normal ""
  ∧ (14 ≤ 99 → toRomanUpper (Num (- 14)) = toRomanUpper (Num 14))%Z
  ∧ (100 ≤ 14 → toRomanUpper (Num (- 14)) = Throw RangeError)%Z.
Proof. apply (toRoman_off_range 14). lia. Defined.

(** *** Letters *)

Lemma digit26_letter (d : N) :
  (d < 26)%N →
  ALPH_at (parseInt26 (digit26 d)) = [ascii_of_N (65 + d)]
  ∧ digit26_value (digit26 d) = d.
Proof.
  intros Hd.
  assert (Hall : Forall (fun k =>
                   ALPH_at (parseInt26 (digit26 (N.of_nat k))) = [ascii_of_N (65 + N.of_nat k)]
                   ∧ digit26_value (digit26 (N.of_nat k)) = N.of_nat k)
                 (seq 0 26)).
  { apply (bool_decide_unpack _). vm_compute. reflexivity. }
  rewrite Forall_forall in Hall.
  replace d with (N.of_nat (N.to_nat d)) by lia.
  apply Hall. apply elem_of_seq. lia.
Qed.

(** The digits [toString26] writes. *)
Lemma digits26_digits (fuel : nat) (n : N) (acc : list ascii) :
  Forall (fun c => ∃ d, (d < 26)%N ∧ c = digit26 d) acc →
  Forall (fun c => ∃ d, (d < 26)%N ∧ c = digit26 d) (digits26 fuel n acc).
Proof.
  revert n acc. induction fuel as [|fuel IH]; intros n acc Hacc; [done|].
  rewrite NumeralProps.digits26_S. destruct (n <? 26)%N eqn:Hlt.
  - apply N.ltb_lt in Hlt. constructor; [by exists n|done].
  - apply IH. constructor; [|done]. exists (n mod 26)%N.
    split; [apply N.mod_lt; lia|done].
Qed.

Lemma alph_value_digits (l : list ascii) (a : N) :
  Forall (fun c => ∃ d, (d < 26)%N ∧ c = digit26 d) l →
  foldl (fun v c => 26 * v + (N_of_ascii c - 65))%N a
    (concat ((fun c => ALPH_at (parseInt26 c)) <$> l))
  = foldl (fun v c => 26 * v + digit26_value c)%N a l
  ∧ Forall (fun c => is_upper c = true)
      (concat ((fun c => ALPH_at (parseInt26 c)) <$> l))
  ∧ length (concat ((fun c => ALPH_at (parseInt26 c)) <$> l)) = length l.
Proof.
  intros Hl. revert a. induction Hl as [|c l (d & Hd & ->) _ IH]; intros a; [done|].
  destruct (digit26_letter d Hd) as [Hletter Hvalue].
  rewrite fmap_cons. cbn [concat]. rewrite Hletter. cbn [app foldl].
  rewrite Hvalue. destruct (IH (26 * a + d)%N) as (IH1 & IH2 & IH3).
  split; [|split].
  - rewrite <- IH1. f_equal. rewrite N_ascii_embedding by lia. lia.
  - constructor; [|done].
    assert (Hup : Forall (fun k => is_upper (ascii_of_N (65 + N.of_nat k)) = true) (seq 0 26)).
    { apply (bool_decide_unpack _). vm_compute. reflexivity. }
    rewrite Forall_forall in Hup.
    replace d with (N.of_nat (N.to_nat d)) by lia.
    apply Hup. apply elem_of_seq. lia.
  - simpl. by rewrite IH3.
Qed.

(** X24: the letter styles as numerals. For a number [n] from 1 to 2^53
    (where [n - 1] is exact), [toAlphUpper] returns capital letters only,
    at least one, and they are the digits of [n - 1] in base 26 with A for
    0 up to Z for 25; so different numbers of this range get different
    texts. *)
Theorem toAlphUpper_value (n m : Z) :
  (1 ≤ n)%Z → exact_integer n → (1 ≤ m)%Z → exact_integer m →
  alph_value (chars (toAlphUpper (Num n))) = Z.to_N (n - 1)
  ∧ Forall (fun c => is_upper c = true) (chars (toAlphUpper (Num n)))
  ∧ toAlphUpper (Num n) ≠ ""
  ∧ (toAlphUpper (Num n) = toAlphUpper (Num m) → n = m).
Proof.
  assert (Hval : ∀ z, (1 ≤ z)%Z →
            alph_value (chars (toAlphUpper (Num z))) = Z.to_N (z - 1)
            ∧ Forall (fun c => is_upper c = true) (chars (toAlphUpper (Num z)))
            ∧ toAlphUpper (Num z) ≠ "").
  { intros z Hz. unfold toAlphUpper.
    change (number_add (Num z) (Num (-1))) with (Num (z + -1)).
    replace (z + -1)%Z with (z - 1)%Z by lia.
    pose proof (NumeralProps.toString26_value (z - 1) ltac:(lia)) as Hv.
    assert (Hd : Forall (fun c => ∃ d, (d < 26)%N ∧ c = digit26 d)
                   (chars (toString26 (Num (z - 1))))
                 ∧ chars (toString26 (Num (z - 1))) ≠ []).
    { unfold toString26. rewrite UtilsProps.chars_unchars.
      replace (z - 1 <? 0)%Z with false by (symmetry; apply Z.ltb_ge; lia).
      split; [by apply digits26_digits|].
      assert (Hlen : ∀ fuel k acc, acc ≠ [] → digits26 fuel k acc ≠ []).
      { clear. induction fuel as [|fuel IH]; intros k acc Hacc; [done|].
        rewrite NumeralProps.digits26_S. destruct (k <? 26)%N; [done|].
        by apply IH. }
      rewrite NumeralProps.digits26_S.
      destruct (Z.abs_N (z - 1) <? 26)%N; [done|]. by apply Hlen. }
    destruct Hd as [Hd Hne].
    destruct (alph_value_digits _ 0%N Hd) as (H1 & H2 & H3).
    rewrite UtilsProps.chars_unchars.
    split; [|split].
    - unfold alph_value. rewrite H1. exact Hv.
    - exact H2.
    - intros Hempty.
      apply (f_equal chars) in Hempty. rewrite UtilsProps.chars_unchars in Hempty.
      rewrite Hempty in H3. apply Hne, nil_length_inv. by rewrite <- H3. }
  intros Hn _ Hm _. destruct (Hval n Hn) as (H1 & H2 & H3).
  split; [done|]. split; [done|]. split; [done|].
  intros Heq. destruct (Hval m Hm) as (H1' & _ & _).
  rewrite Heq in H1. rewrite H1 in H1'. lia.
Qed.

Lemma toAlphUpper_value_witness :
  alph_value (chars (toAlphUpper (Num 27))) = Z.to_N (27 - 1)
  ∧ Forall (fun c => is_upper c = true) (chars (toAlphUpper (Num 27)))
  ∧ toAlphUpper (Num 27) ≠ ""
  ∧ (toAlphUpper (Num 27) = toAlphUpper (Num 703) → 27%Z = 703%Z).
Proof. apply (toAlphUpper_value 27 703); unfold exact_integer; lia. Defined.

(** *** Decimal numerals *)

Lemma digits_value_string_of_uint (d : Decimal.uint) (acc : Z) :
  digits_value acc (chars (NilEmpty.string_of_uint d)) = Some (uint_value acc d)
  ∧ Forall (fun c => is_digit c = true) (chars (NilEmpty.string_of_uint d)).
Proof.
  revert acc. induction d as [|d IH|d IH|d IH|d IH|d IH|d IH|d IH|d IH|d IH|d IH];
    intros acc; [done|..];
    destruct (IH (10 * acc + digit_value
                    (match chars (NilEmpty.string_of_uint (Decimal.D0 Decimal.Nil)) with
                     | c :: _ => c | [] => "0"%char end))%Z) as [_ Hd];
    cbn [NilEmpty.string_of_uint uint_value];
    match goal with
    | |- context [chars (String ?c ?s)] => change (chars (String c s)) with (c :: chars s)
    end;
    cbn [digits_value];
    match goal with
    | |- context [is_digit ?c] => change (is_digit c) with true
    end;
    cbv iota;
    match goal with
    | |- context [digit_value ?c] =>
        let v := eval vm_compute in (digit_value c) in change (digit_value c) with v
    end;
    rewrite ?Z.add_0_r;
    (split; [apply IH|by constructor]).
Qed.

Lemma of_uint_acc_value (d : Decimal.uint) (acc : positive) :
  Z.pos (Pos.of_uint_acc d acc) = uint_value (Z.pos acc) d.
Proof.
  revert acc. induction d as [|d IH|d IH|d IH|d IH|d IH|d IH|d IH|d IH|d IH|d IH];
    intros acc; cbn [Pos.of_uint_acc uint_value]; [done|..];
    rewrite IH; f_equal; lia.
Qed.

Lemma of_uint_value (d : Decimal.uint) :
  Z.of_N (Pos.of_uint d) = uint_value 0 d.
Proof.
  induction d as [|d IH|d IH|d IH|d IH|d IH|d IH|d IH|d IH|d IH|d IH];
    cbn [Pos.of_uint uint_value]; [done|exact IH|..];
    cbn [Z.of_N]; rewrite of_uint_acc_value; f_equal.
Qed.

Lemma to_uint_value (p : positive) : uint_value 0 (Pos.to_uint p) = Z.pos p.
Proof. by rewrite <- of_uint_value, DecimalPos.Unsigned.of_to. Qed.

Lemma to_uint_normal (p : positive) (u : Decimal.uint) : Pos.to_uint p ≠ Decimal.D0 u.
Proof.
  intros Heq.
  pose proof (DecimalPos.Unsigned.to_of (Pos.to_uint p)) as Hnorm.
  rewrite DecimalPos.Unsigned.of_to in Hnorm. cbn [N.to_uint] in Hnorm.
  rewrite Heq, DecimalFacts.unorm_D0 in Hnorm.
  assert (Hu : u = Decimal.Nil ∨ u ≠ Decimal.Nil)
    by (destruct u; [by left|by right..]).
  destruct Hu as [->|Hne].
  - by apply (DecimalPos.Unsigned.to_uint_nonzero p).
  - pose proof (DecimalFacts.nb_digits_unorm u Hne) as Hle.
    rewrite <- Hnorm in Hle. cbn [Decimal.nb_digits] in Hle. lia.
Qed.

(** The decimal numeral of a positive number: a digit other than 0, then
    digits; read as a number it is the number. *)
Lemma decimal_positive (p : positive) :
  ∃ c ds, chars (number_to_string (Num (Z.pos p))) = c :: ds
          ∧ is_nonzero_digit c = true
          ∧ Forall (fun c => is_digit c = true) ds
          ∧ digits_value 0 (c :: ds) = Some (Z.pos p).
Proof.
  unfold number_to_string. cbn [Z.to_int NilZero.string_of_int].
  pose proof (to_uint_normal p) as Hnz.
  pose proof (DecimalPos.Unsigned.to_uint_nonnil p) as Hnn.
  pose proof (to_uint_value p) as Hv.
  destruct (digits_value_string_of_uint (Pos.to_uint p) 0) as [Hdv Hdig].
  rewrite Hv in Hdv.
  assert (Hs : NilZero.string_of_uint (Pos.to_uint p)
               = NilEmpty.string_of_uint (Pos.to_uint p)).
  { by destruct (Pos.to_uint p). }
  rewrite Hs.
  destruct (Pos.to_uint p) as [|u|u|u|u|u|u|u|u|u|u]; [done|by destruct (Hnz u)|..];
    cbn [NilEmpty.string_of_uint] in *;
    match goal with
    | |- context [chars (String ?c ?s)] =>
        change (chars (String c s)) with (c :: chars s) in *;
        exists c, (chars s)
    end;
    (split; [done|]); (split; [done|]);
    (split; [by apply Forall_cons in Hdig as [_ ?]|done]).
Qed.

Lemma nonspace_digits (l : list ascii) :
  Forall (fun c => is_digit c = true) l → Forall (fun c => is_space c = false) l.
Proof.
  intros Hl. eapply Forall_impl; [exact Hl|]. intros c.
  destruct c as [[] [] [] [] [] [] [] []]; vm_compute; intros H;
    first [discriminate H | reflexivity].
Qed.





End NumeralFacts.

(** ** Naming a copy *)

Module CopyProps.
Import JS Store ProfileData Registry Reference.

Lemma span_digits_digits (l : list ascii) :
  Forall (fun c => is_digit c = true) (span_digits l).1.
Proof.
  induction l as [|c r IH]; simpl; [constructor|].
  destruct (is_digit c) eqn:Hc; [|constructor].
  destruct (span_digits r) as [ds rest]. simpl in *. by constructor.
Qed.

Lemma span_digits_app (ds rest : list ascii) :
  Forall (fun c => is_digit c = true) ds →
  match rest with c :: _ => is_digit c = false | [] => True end →
  span_digits (ds ++ rest) = (ds, rest).
Proof.
  intros Hds Hrest. induction Hds as [|c ds Hc _ IH]; simpl.
  - destruct rest as [|c r]; [done|]. simpl. by rewrite Hrest.
  - by rewrite Hc, IH.
Qed.

Lemma match_here_shape (l g : list ascii) :
  match_here l = Some g →
  ∃ c ds, g = c :: ds ∧ is_nonzero_digit c = true
          ∧ Forall (fun c => is_digit c = true) ds.
Proof.
  unfold match_here. destruct l as [|c0 [|c r]]; try done.
  - by destruct (Ascii.eqb c0 "("); destruct c0 as [[] [] [] [] [] [] [] []].
  - intros H. assert (Hc0 : c0 = "("%char).
    { destruct c0 as [[] [] [] [] [] [] [] []]; try discriminate H. reflexivity. }
    subst c0. destruct (is_nonzero_digit c) eqn:Hc; [|done].
    pose proof (span_digits_digits r) as Hds.
    destruct (span_digits r) as [ds rest]. simpl in Hds.
    exists c, ds. split; [|done].
    destruct rest as [|c' rest']; [done|].
    destruct c' as [[] [] [] [] [] [] [] []]; try discriminate H.
    by injection H.
Qed.

Lemma regex_search_shape (l g : list ascii) :
  regex_search l = Some g →
  ∃ c ds, g = c :: ds ∧ is_nonzero_digit c = true
          ∧ Forall (fun c => is_digit c = true) ds.
Proof.
  induction l as [|c r IH]; cbn [regex_search].
  - destruct (match_here []) eqn:Hm; [|done]. intros [= <-]. by eapply match_here_shape.
  - destruct (match_here (c :: r)) eqn:Hm.
    + intros [= <-]. by eapply match_here_shape.
    + exact IH.
Qed.

Lemma regex_search_skip (w l : list ascii) :
  "("%char ∉ w → regex_search (w ++ l) = regex_search l.
Proof.
  induction w as [|c w IH]; intros Hw; [done|].
  apply not_elem_of_cons in Hw as [Hc Hw].
  cbn [app regex_search].
  assert (Hm : match_here (c :: w ++ l) = None).
  { unfold match_here. destruct c as [[] [] [] [] [] [] [] []]; try reflexivity.
    by destruct Hc. }
  rewrite Hm. by apply IH.
Qed.

Lemma regex_search_here (l g : list ascii) :
  match_here l = Some g → regex_search l = Some g.
Proof. intros H. destruct l; cbn [regex_search]; by rewrite H. Qed.

Lemma digits_value_nonneg (l : list ascii) (acc : Z) :
  (0 ≤ acc)%Z → Forall (fun c => is_digit c = true) l →
  ∃ v, digits_value acc l = Some v ∧ (0 ≤ v)%Z.
Proof.
  intros Hacc Hl. revert acc Hacc. induction Hl as [|c l Hc _ IH]; intros acc Hacc.
  - by exists acc.
  - simpl. rewrite Hc. apply IH.
    assert (0 ≤ digit_value c)%Z; [|lia].
    unfold is_digit, digit_value in *.
    apply andb_true_iff in Hc as [H1 _]. apply Nat.leb_le in H1. lia.
Qed.

Lemma nonzero_digit_digit (c : ascii) :
  is_nonzero_digit c = true →
  is_digit c = true ∧ c ≠ "+"%char ∧ c ≠ "-"%char.
Proof.
  destruct c as [[] [] [] [] [] [] [] []]; vm_compute; intros H;
    first [discriminate H | split; [reflexivity|split; discriminate]].
Qed.

(** The number a run of digits that begins with a digit other than 0 is
    read as. *)
Lemma StringToNumber_digits (c : ascii) (ds : list ascii) :
  is_nonzero_digit c = true → Forall (fun c => is_digit c = true) ds →
  ∃ v, StringToNumber (unchars (c :: ds)) = Num v ∧ (0 ≤ v)%Z
       ∧ digits_value 0 (c :: ds) = Some v.
Proof.
  intros Hc Hds. destruct (nonzero_digit_digit c Hc) as (Hd & Hplus & Hminus).
  assert (Hall : Forall (fun c => is_digit c = true) (c :: ds)) by by constructor.
  destruct (digits_value_nonneg (c :: ds) 0 ltac:(lia) Hall) as (v & Hv & Hpos).
  exists v. split; [|done].
  unfold StringToNumber. rewrite UtilsProps.chars_unchars.
  rewrite (proj1 (DialogProps.trim_chars_plain _ (NumeralFacts.nonspace_digits _ Hall))).
  assert (Hlit : unsigned_literal (c :: ds) = Num v).
  { unfold unsigned_literal. by rewrite Hv. }
  rewrite <- Hlit.
  destruct c as [[] [] [] [] [] [] [] []]; try reflexivity; done.
Qed.

Lemma suffix_number_nonneg (oldID i : string) :
  ∃ v, suffix_number oldID i = Num v ∧ (0 ≤ v)%Z.
Proof.
  unfold suffix_number.
  destruct (regex_search _) as [g|] eqn:Hg.
  - apply regex_search_shape in Hg as (c & ds & -> & Hc & Hds).
    destruct (StringToNumber_digits c ds Hc Hds) as (v & Hv & Hpos & _). by exists v.
  - exists 0%Z. split; [by vm_compute|lia].
Qed.

Lemma Math_max_Num (v : Z) (r : list number) :
  Math_max (Num v :: r)
  = match Math_max r with
    | None => Some (Num v)
    | Some (Num m) => Some (Num (Z.max v m))
    | Some NaN => Some NaN
    end.
Proof. reflexivity. Qed.

Lemma Math_max_bound (numbers : list number) :
  Forall (fun n => ∃ v, n = Num v ∧ (0 ≤ v)%Z) numbers → numbers ≠ [] →
  ∃ m, Math_max numbers = Some (Num m) ∧ (0 ≤ m)%Z
       ∧ ∀ v, Num v ∈ numbers → (v ≤ m)%Z.
Proof.
  induction 1 as [|n r (v & -> & Hv) Hr IH]; intros Hne; [done|].
  destruct r as [|n' r'].
  - exists v. simpl. split; [done|]. split; [done|].
    intros w Hw. apply list_elem_of_singleton in Hw. injection Hw as ->. lia.
  - destruct (IH ltac:(done)) as (m & Hm & Hpos & Hle).
    exists (Z.max v m). rewrite Math_max_Num, Hm.
    split; [done|]. split; [lia|].
    intros w Hw. apply elem_of_cons in Hw as [Hw|Hw].
    + injection Hw as ->. lia.
    + specialize (Hle w Hw). lia.
Qed.

Lemma Math_max_le (numbers : list number) (bound m : Z) :
  Forall (fun n => ∃ v, n = Num v ∧ (v ≤ bound)%Z) numbers →
  Math_max numbers = Some (Num m) → (m ≤ bound)%Z.
Proof.
  intros Hall. revert m. induction Hall as [|n r (v & -> & Hv) _ IH]; intros m; [done|].
  rewrite Math_max_Num. destruct (Math_max r) as [[|m']|].
  - discriminate.
  - intros [= <-]. specialize (IH m' eq_refl). lia.
  - intros [= <-]. done.
Qed.

Lemma append_assoc_r (a b c : string) : a +:+ (b +:+ c) = (a +:+ b) +:+ c.
Proof.
  induction a as [|x a IH]; [done|].
  change (String x (a +:+ (b +:+ c)) = String x ((a +:+ b) +:+ c)).
  by rewrite IH.
Qed.

Lemma length_chars (s : string) : length (chars s) = String.length s.
Proof. induction s as [|c s IH]; [done|]. cbn. f_equal. exact IH. Qed.

(** The number found in the id [Copy of X (n)], for [X] without an opening
    parenthesis. *)
Lemma suffix_number_of_copy (oldID : string) (p : positive) :
  "("%char ∉ chars oldID →
  suffix_number oldID
    ("Copy of " +:+ oldID +:+ " (" +:+ number_to_string (Num (Z.pos p)) +:+ ")")
  = Num (Z.pos p).
Proof.
  intros Hno. unfold suffix_number, slice_from.
  rewrite UtilsProps.chars_unchars, !UtilsProps.chars_append.
  destruct (NumeralFacts.decimal_positive p) as (c & ds & Hdec & Hc & Hds & Hv).
  rewrite Hdec.
  rewrite <- length_chars.
  rewrite (assoc_L (++) (chars "Copy of ")).
  rewrite drop_app_le by (rewrite length_app; simpl; lia).
  change (chars " (" ++ (c :: ds) ++ chars ")")
    with ([" "%char] ++ ("("%char :: c :: ds ++ [")"%char])).
  rewrite (assoc_L (++)). rewrite regex_search_skip.
  - rewrite (regex_search_here _ (c :: ds)).
    + destruct (StringToNumber_digits c ds Hc Hds) as (v & Hnum & _ & Hv').
      rewrite Hnum. congruence.
    + unfold match_here. rewrite Hc.
      rewrite (span_digits_app ds [")"%char]) by done. done.
  - intros Hin. apply elem_of_app in Hin as [Hin|Hin].
    + assert (Hin' : "("%char ∈ chars "Copy of " ++ chars oldID).
      { rewrite <- (take_drop (length (chars oldID) + 1)).
        apply elem_of_app. by right. }
      clear Hin. rename Hin' into Hin.
      apply elem_of_app in Hin as [Hin|Hin]; [|done].
      revert Hin. apply (bool_decide_unpack _). vm_compute. reflexivity.
    + apply list_elem_of_singleton in Hin. discriminate.
Qed.

(** X26: a fresh name for a copy. Over ASCII ids, when the id of the
    profile copied holds no opening parenthesis and the number every key
    of the table contributes stays exact as a double when 1 is added (it
    is below 2^53), the id [makeIdOfCopy] returns is not a key of the
    table; when [Copy of X] is taken, it is [Copy of X (m)] for a number
    [m] from 1 to 2^53; and the copy button adds one entry under that id
    and keeps every entry the table had. *)
Theorem makeIdOfCopy_fresh (oldID : string) (profiles : gmap string Profile) :
  UtilsReference.ascii_text (chars oldID) →
  Forall (fun i => UtilsReference.ascii_text (chars i)) (keys profiles) →
  "("%char ∉ chars oldID →
  Forall (fun i => exact_number (number_add (suffix_number oldID i) (Num 1)) = true)
    (keys profiles) →
  (makeIdOfCopy oldID profiles ∉ dom profiles)
  ∧ ("Copy of " +:+ oldID ∈ dom profiles →
     ∃ m, (1 ≤ m)%Z ∧ exact_integer m
          ∧ makeIdOfCopy oldID profiles
            = "Copy of " +:+ oldID +:+ " (" +:+ number_to_string (Num m) +:+ ")")
  ∧ ∀ p, profiles !! oldID = Some p →
      ∃ t, copyProfile oldID profiles = Normal t
           ∧ size t = S (size profiles)
           ∧ profiles ⊆ t
           ∧ t !! makeIdOfCopy oldID profiles
             = Some (with_id p (Some (makeIdOfCopy oldID profiles))).
Proof.
  intros _ _ Hno Hexact.
  assert (Hmax : "Copy of " +:+ oldID ∈ dom profiles →
            ∃ m, Math_max (suffix_number oldID <$> keys profiles) = Some (Num m)
                 ∧ (0 ≤ m)%Z ∧ (m + 1 ≤ 2 ^ 53)%Z
                 ∧ ∀ v, Num v ∈ suffix_number oldID <$> keys profiles → (v ≤ m)%Z).
  { intros Hin. set (numbers := suffix_number oldID <$> keys profiles).
    destruct (Math_max_bound numbers) as (m & Hm & Hpos & Hle).
    { apply Forall_fmap, Forall_forall. intros i _. apply suffix_number_nonneg. }
    { apply elem_of_dom in Hin. apply RegistryProps.keys_elem_of in Hin.
      subst numbers. destruct (keys profiles); [by apply elem_of_nil in Hin|done]. }
    exists m. split; [done|]. split; [done|]. split; [|done].
    assert (Hb : (m ≤ 2 ^ 53 - 1)%Z); [|lia].
    apply (Math_max_le numbers); [|done].
    apply Forall_fmap. eapply Forall_impl; [exact Hexact|].
    intros i Hi. simpl in Hi |- *.
    destruct (suffix_number oldID i) as [|v]; [done|].
    exists v. split; [done|]. cbn [number_add exact_number] in Hi.
    apply andb_true_iff in Hi as [_ Hi]. apply Z.leb_le in Hi. lia. }
  assert (Hfresh : makeIdOfCopy oldID profiles ∉ dom profiles).
  { unfold makeIdOfCopy.
    destruct (decide ("Copy of " +:+ oldID ∈ dom profiles)) as [Hin|Hout]; [|done].
    destruct (Hmax Hin) as (m & Hm & Hpos & _ & Hle).
    rewrite Hm. cbn [number_add].
    destruct (m + 1)%Z as [|q|q] eqn:Hq; [lia| |lia].
    intros Hkey. apply elem_of_dom, RegistryProps.keys_elem_of in Hkey.
    assert (Hnum : Num (Z.pos q) ∈ suffix_number oldID <$> keys profiles).
    { apply list_elem_of_fmap. eexists. split; [|exact Hkey].
      symmetry. rewrite <- !append_assoc_r. by apply suffix_number_of_copy. }
    specialize (Hle _ Hnum). lia. }
  split; [done|]. split.
  { intros Hin. destruct (Hmax Hin) as (m & Hm & Hpos & Hup & _).
    exists (m + 1)%Z. split; [lia|]. split; [unfold exact_integer; lia|].
    unfold makeIdOfCopy. destruct (decide _) as [_|Hout]; [|done].
    rewrite Hm. cbn [number_add]. by rewrite <- !append_assoc_r. }
  intros p Hp. unfold copyProfile. rewrite Hp.
  eexists. split; [reflexivity|].
  apply not_elem_of_dom in Hfresh.
  split; [by rewrite map_size_insert_None|].
  split; [by apply insert_subseteq|].
  apply lookup_insert_eq.
Qed.

Lemma makeIdOfCopy_fresh_witness :
  (makeIdOfCopy "English" Examples.copies_of_English ∉ dom Examples.copies_of_English)
  ∧ ("Copy of " +:+ "English" ∈ dom Examples.copies_of_English →
     ∃ m, (1 ≤ m)%Z ∧ exact_integer m
          ∧ makeIdOfCopy "English" Examples.copies_of_English
            = "Copy of " +:+ "English" +:+ " (" +:+ number_to_string (Num m) +:+ ")")
  ∧ ∀ p, Examples.copies_of_English !! "English" = Some p →
      ∃ t, copyProfile "English" Examples.copies_of_English = Normal t
           ∧ size t = S (size Examples.copies_of_English)
           ∧ Examples.copies_of_English ⊆ t
           ∧ t !! makeIdOfCopy "English" Examples.copies_of_English
             = Some (with_id p (Some (makeIdOfCopy "English" Examples.copies_of_English))).
Proof.
  apply (makeIdOfCopy_fresh "English" Examples.copies_of_English);
    apply (bool_decide_unpack _); vm_compute; reflexivity.
Defined.

End CopyProps.

(** ** Rewriting references *)

Module UpdateProps.
Import JS Vault Store ProfileData Resolver Registry Reference.



(** X28: the resolver reads the chain only. Two plugin states that store the
    same settings objects for the nodes [getAncestors] lists resolve a
    location alike, whatever they store elsewhere; the profiles and the
    excluded files play no part. *)
Theorem resolveSettings_chain_only (D : nat) (settings : option nat)
    (plugin1 plugin2 : MathBooster) (file : TAbstractFile) (h : Heap) :
  (∀ a, a ∈ getAncestors file →
        Store.settings plugin1 !! path a = Store.settings plugin2 !! path a) →
  resolveSettings D settings plugin1 file h = resolveSettings D settings plugin2 file h.
Proof.
  intros Hsame. rewrite !ResolverProps.resolveSettings_eq. do 3 f_equal.
  unfold merged. f_equal.
  generalize (read h D ∪ ∅ : JSObject) as base.
  induction (getAncestors file) as [|a l IH]; intros base; [done|].
  simpl. rewrite (Hsame a) by by left.
  apply IH. intros b Hb. apply Hsame. by right.
Qed.

Lemma resolveSettings_chain_only_witness :
  resolveSettings 0 None Examples.layered_plugin Examples.b_md Examples.layered_heap
  = resolveSettings 0 None
      (with_settings Examples.layered_plugin
         (delete "notes" (Store.settings Examples.layered_plugin)))
      Examples.b_md Examples.layered_heap.
Proof.
  apply (resolveSettings_chain_only 0 None Examples.layered_plugin
           (with_settings Examples.layered_plugin
              (delete "notes" (Store.settings Examples.layered_plugin)))
           Examples.b_md Examples.layered_heap).
  apply Forall_forall, (bool_decide_unpack _). vm_compute. reflexivity.
Defined.

End UpdateProps.

(** ** Text with inline math *)

Module MathTextProps.
Import JS Utils UtilsReference MathText.

Lemma math_body_spec (seen : option ascii) (l body rest : list ascii) :
  math_body seen l = Some (body, rest) →
  l = body ++ "$"%char :: rest
  ∧ Forall (fun c => is_dot c = true) body
  ∧ match last body with
    | Some c => is_space c = false
    | None => ∃ p, seen = Some p ∧ is_space p = false
    end.
Proof.
  revert seen body rest. induction l as [|c r IH]; intros seen body rest; [done|].
  cbn [math_body].
  destruct (Ascii.eqb c "$" && _) eqn:Hend.
  - intros [= <- <-]. apply andb_true_iff in Hend as [Hc Hp].
    apply Ascii.eqb_eq in Hc as ->. split; [done|]. split; [constructor|].
    destruct seen as [p|]; [|done]. exists p. split; [done|].
    by apply negb_true_iff in Hp.
  - destruct (is_dot c) eqn:Hdot; [|done].
    destruct (math_body (Some c) r) as [[body' rest']|] eqn:Hm; [|done].
    intros [= <- <-]. destruct (IH _ _ _ Hm) as (-> & Hdots & Hlast).
    split; [done|]. split; [by constructor|].
    destruct body' as [|c' body''].
    + destruct Hlast as (p & [= <-] & Hp). exact Hp.
    + change (last (c :: c' :: body'')) with (last (c' :: body'')).
      destruct (last (c' :: body'')) eqn:E; [exact Hlast|].
      by apply last_None in E.
Qed.

Lemma render_loop_skip (k : nat) (pending l1 l2 : list ascii) :
  length l1 = k → render_loop k pending (l1 ++ l2) = render_loop 0 pending l2.
Proof.
  revert k. induction l1 as [|c l1 IH]; intros k Hk; simpl in *.
  - by subst k.
  - subst k. by apply IH.
Qed.

Lemma shown_push_text (pending : list ascii) :
  concat (shown <$> push_text pending) = pending
  ∧ Forall well_cut (push_text pending).
Proof.
  destruct pending as [|c p]; [by split; [|constructor]|].
  cbn [push_text fmap list_fmap concat shown]. rewrite UtilsProps.chars_unchars.
  split; [by rewrite app_nil_r|]. constructor; [|constructor]. done.
Qed.

Lemma render_loop_spec (n : nat) (l pending : list ascii) :
  length l ≤ n →
  concat (shown <$> render_loop 0 pending l) = pending ++ l
  ∧ Forall well_cut (render_loop 0 pending l).
Proof.
  revert l pending. induction n as [|n IH]; intros l pending Hlen.
  { destruct l; [|simpl in Hlen; lia]. rewrite app_nil_r. apply shown_push_text. }
  destruct l as [|c r].
  { rewrite app_nil_r. apply shown_push_text. }
  simpl in Hlen. cbn [render_loop].
  assert (Hplain : concat (shown <$> render_loop 0 (pending ++ [c]) r) = pending ++ c :: r
                   ∧ Forall well_cut (render_loop 0 (pending ++ [c]) r)).
  { destruct (IH r (pending ++ [c]) ltac:(lia)) as [H1 H2].
    split; [by rewrite H1, <- (assoc_L (++))|done]. }
  destruct (Ascii.eqb c "$") eqn:Hc; [|exact Hplain].
  destruct (math_body None r) as [[body rest]|] eqn:Hm; [|exact Hplain].
  apply Ascii.eqb_eq in Hc as ->.
  destruct (math_body_spec _ _ _ _ Hm) as (-> & Hdots & Hlast).
  replace (body ++ "$"%char :: rest) with ((body ++ ["$"%char]) ++ rest)
    by by rewrite <- (assoc_L (++)).
  rewrite render_loop_skip by (rewrite length_app; simpl; lia).
  destruct (IH rest [] ltac:(rewrite length_app in Hlen; simpl in Hlen; lia)) as [H1 H2].
  destruct (shown_push_text pending) as [P1 P2].
  split.
  - rewrite fmap_app, concat_app, P1. rewrite fmap_cons. cbn [concat shown].
    rewrite UtilsProps.chars_unchars, H1. simpl.
    by rewrite <- !(assoc_L (++)).
  - apply Forall_app. split; [done|]. constructor; [|done].
    cbn [well_cut]. rewrite UtilsProps.chars_unchars. split; [done|].
    destruct (last body) as [x|]; [by exists x|].
    by destruct Hlast as (p & Hp & _).
Qed.

Lemma render_loop_plain (l pending : list ascii) :
  "$"%char ∉ l → render_loop 0 pending l = push_text (pending ++ l).
Proof.
  revert pending. induction l as [|c r IH]; intros pending Hno.
  - by rewrite app_nil_r.
  - apply not_elem_of_cons in Hno as [Hc Hr]. cbn [render_loop].
    replace (Ascii.eqb c "$") with false by (symmetry; apply Ascii.eqb_neq; congruence).
    rewrite IH by done. by rewrite <- (assoc_L (++)).
Qed.

(** X29: text cut at inline math. For an ASCII text, the elements
    [renderTextWithMath] collects stand, put end to end with each math
    string between dollar signs again, for the text itself; no piece of
    plain text is empty, and every math string is non-empty, free of line
    terminators and does not end in white space. A text without a dollar
    sign is one piece of plain text (no element at all when it is
    empty). *)
Theorem renderTextWithMath_pieces (source : string) :
  ascii_text (chars source) →
  concat (shown <$> renderTextWithMath source) = chars source
  ∧ Forall well_cut (renderTextWithMath source)
  ∧ ("$"%char ∉ chars source →
     renderTextWithMath source = push_text (chars source)).
Proof.
  intros _. unfold renderTextWithMath.
  destruct (render_loop_spec (length (chars source)) (chars source) []) as [H1 H2];
    [done|].
  split; [done|]. split; [done|].
  intros Hno. by rewrite render_loop_plain.
Qed.

Lemma renderTextWithMath_pieces_witness :
  concat (shown <$> renderTextWithMath "Let $x > 0$ and $ y$.") = chars "Let $x > 0$ and $ y$."
  ∧ Forall well_cut (renderTextWithMath "Let $x > 0$ and $ y$.")
  ∧ ("$"%char ∉ chars "Let $x > 0$ and $ y$." →
     renderTextWithMath "Let $x > 0$ and $ y$." = push_text (chars "Let $x > 0$ and $ y$.")).
Proof.
  apply (renderTextWithMath_pieces "Let $x > 0$ and $ y$.").
  apply (bool_decide_unpack _). vm_compute. reflexivity.
Defined.

End MathTextProps.
